(** * Timeline consolidation and anomaly detection of [assets/Analyser.py]

    A shallow embedding of [load_csv], [build_file_table] and [detect],
    and the properties of the consolidation and detection engine proved
    on it.

    Conventions of the embedding.
    - A pandas [Timestamp] is its count of nanoseconds since the epoch, an
      integer of [Z]; [NaT] (and a missing cell, and [None]) is [None].
      A difference of two timestamps is a [Timedelta], a count of
      nanoseconds of 64 bits: the subtraction of [detect] raises when the
      difference does not fit.
    - A data frame is the list of its rows, in index order.
    - Strings are byte strings, compared byte by byte. *)

From stdpp Require Import gmap strings list sorting.
From Stdlib Require Import ZArith Ascii.

Local Open Scope Z_scope.

(** ** Strings *)

(** [str.lower], byte by byte.  [load_csv] only compares the result with
    ["true"], ["1"] and ["yes"]; no character outside ASCII has one of
    their letters for its lower case, so the comparison comes out as in
    Python on every string. *)
Definition lower_ascii (c : Ascii.ascii) : Ascii.ascii :=
  let n := Ascii.nat_of_ascii c in
  if bool_decide (65 ≤ n ≤ 90)%nat then Ascii.ascii_of_nat (n + 32) else c.

Fixpoint lower (s : string) : string :=
  match s with
  | EmptyString => EmptyString
  | String c s' => String (lower_ascii c) (lower s')
  end.

(** [str.upper] as it is on ASCII text.  [build_file_table] takes the
    upper-casing function as a parameter below, and what is proved of it
    holds for every such function, that of Python on all of Unicode among
    them; [ascii_upper] only instantiates it on the sample frames, whose
    types are ASCII. *)
Definition upper_ascii (c : Ascii.ascii) : Ascii.ascii :=
  let n := Ascii.nat_of_ascii c in
  if bool_decide (97 ≤ n ≤ 122)%nat then Ascii.ascii_of_nat (n - 32) else c.

Fixpoint ascii_upper (s : string) : string :=
  match s with
  | EmptyString => EmptyString
  | String c s' => String (upper_ascii c) (ascii_upper s')
  end.

(** ** Data model *)

(** A row of [timeline.csv] as [pd.read_csv] hands it over.  [csv_time] is
    the cell as [pd.to_datetime(..., utc=True, errors="coerce")] reads it:
    [None] for a cell that does not parse.  [csv_path] is [None] for a
    missing cell (NaN).  [csv_type] and [csv_deleted] are the cells as
    [str] prints them. *)
Record CsvRow := {
  csv_time : option Z;
  csv_type : string;
  csv_path : option string;
  csv_partition : string;
  csv_inode : Z;
  csv_size : Z;
  csv_deleted : string
}.

(** The table read from the file: its header and its rows.  The cells of a
    column that the header lacks are never read. *)
Record CsvFrame := {
  columns : list string;
  csv_rows : list CsvRow
}.

(** A row of the frame [load_csv] returns. *)
Record Event := {
  time : option Z;
  type : string;
  path : option string;
  partition : string;
  inode : Z;
  size : Z;
  deleted : bool
}.

(** The dictionary [record] of [build_file_table]: its five literal keys,
    and [stamps] for the keys [record[ttype]] adds.  An upper-cased string
    holds no lower-case letter, so such a key is never one of the five, nor
    ["flags"] nor ["suspicious"]. *)
Record FileRecord := {
  rec_path : option string;
  rec_partition : string;
  rec_inode : Z;
  rec_size : Z;
  rec_deleted : bool;
  stamps : gmap string Z
}.

(** The frame of file records, with the two columns [detect] assigns;
    a column is [None] until it is assigned. *)
Record FileTable := {
  rows : list FileRecord;
  flags : option (list (list string));
  suspicious : option (list bool)
}.

(** How a run ends early: [sys.exit(1)] after one of the two messages of
    [load_csv], the [IndexError] of [iloc[0]] on an empty group, or the
    [OutOfBoundsDatetime] of a subtraction of timestamps in [detect]. *)
Inductive error :=
  | FileNotFound
  | MissingColumn (col : string)
  | IndexError
  | OutOfBoundsDatetime.

(** The line printed before [sys.exit(1)]. *)
Definition report (e : error) : string :=
  match e with
  | FileNotFound => "❌ timeline.csv not found"
  | MissingColumn col => "❌ Missing column: " +:+ col
  | IndexError => "IndexError"
  | OutOfBoundsDatetime => "OutOfBoundsDatetime"
  end.

(** ** [load_csv] *)

Definition required : list string :=
  ["time"; "type"; "path"; "partition"; "inode"; "size"; "deleted"]%string.

(** The loop over [required]: the first column the header lacks. *)
Fixpoint check_columns (req cols : list string) : option string :=
  match req with
  | [] => None
  | col :: req' =>
      if bool_decide (col ∈ cols) then check_columns req' cols else Some col
  end.

(** [df["deleted"].astype(str).str.lower().isin(["true","1","yes"])] *)
Definition parse_deleted (s : string) : bool :=
  bool_decide (lower s ∈ ["true"; "1"; "yes"]%string).

Definition to_event (r : CsvRow) : Event :=
  {| time := csv_time r; type := csv_type r; path := csv_path r;
     partition := csv_partition r; inode := csv_inode r; size := csv_size r;
     deleted := parse_deleted (csv_deleted r) |}.

(** [df.sort_values("time")]: the rows with a time in ascending order of
    it, then the rows without one in their order of the file.  pandas
    leaves the order of rows of equal time open; the model takes the one of
    [merge_sort].  The theorems on [build_file_table] hold for every
    frame, so none rests on that choice. *)
Definition time_le (a b : Event) : Prop :=
  match time a, time b with
  | Some x, Some y => x ≤ y
  | _, _ => True
  end.

#[global] Instance time_le_dec a b : Decision (time_le a b).
Proof. unfold time_le. destruct (time a), (time b); apply _. Defined.

Definition sort_values_time (df : list Event) : list Event :=
  merge_sort time_le (filter (λ e, is_Some (time e)) df)
  ++ filter (λ e, ¬ is_Some (time e)) df.

Definition load_csv (file : option CsvFrame) : error + list Event :=
  match file with
  | None => inl FileNotFound
  | Some df =>
      match check_columns required (columns df) with
      | Some col => inl (MissingColumn col)
      | None => inr (sort_values_time (to_event <$> csv_rows df))
      end
  end.

(** ** [build_file_table] *)

(** Order of the group keys: strings in byte order, the missing path
    last ([groupby(..., dropna=False)] with the default [sort=True]). *)
Definition path_le (a b : option string) : Prop :=
  match a, b with
  | Some x, Some y => String.leb x y = true
  | _, None => True
  | None, Some _ => False
  end.

#[global] Instance path_le_dec a b : Decision (path_le a b).
Proof. destruct a, b; simpl; apply _. Defined.

Definition group_keys (df : list Event) : list (option string) :=
  merge_sort path_le (remove_dups (path <$> df)).

(** The sub-frame of a key: its rows, in the order of the frame. *)
Definition group_of (k : option string) (df : list Event) : list Event :=
  filter (λ e, path e = k) df.

Definition groupby (df : list Event) : list (option string * list Event) :=
  (λ k, (k, group_of k df)) <$> group_keys df.

Section Consolidation.

(** [str.upper], whatever it does beyond ASCII. *)
Variable upper : string → string.

(** One turn of the loop over [g.iterrows()]. *)
Definition set_stamp (m : gmap string Z) (row : Event) : gmap string Z :=
  let ttype := upper (type row) in
  match time row with
  | Some t => <[ttype := t]> m
  | None => m
  end.

(** The body of the loop over the groups; [head g] is [g[...].iloc[0]]. *)
Definition build_record (k : option string) (g : list Event)
  : option FileRecord :=
  r0 ← head g;
  Some {| rec_path := k;
          rec_partition := partition r0;
          rec_inode := inode r0;
          rec_size := size r0;
          rec_deleted := deleted r0;
          stamps := foldl set_stamp ∅ g |}.

Definition build_file_table (df : list Event) : option (list FileRecord) :=
  mapM (λ kg, build_record kg.1 kg.2) (groupby df).

(** The record [build_file_table] makes for the key [k]. *)
Definition record_at (df : list Event) (k : option string)
  : option FileRecord :=
  build_record k (group_of k df).

(** The times that the events of path [p] and upper-cased type [k] write,
    in the order of the frame: the events without a time write nothing. *)
Definition observations (p : option string) (k : string) (df : list Event)
  : list Z :=
  omap (λ e, if decide (path e = p ∧ upper (type e) = k) then time e else None)
       df.

End Consolidation.

(** [pd.DataFrame(rows)]: neither [flags] nor [suspicious] is a column
    yet. *)
Definition DataFrame (rs : list FileRecord) : FileTable :=
  {| rows := rs; flags := None; suspicious := None |}.

(** ** [detect] *)

(** [r.get(key)] for one of the four keys [detect] reads: [None] when the
    record has no such key, or when the column exists and the cell is
    empty. *)
Definition CRTIME (r : FileRecord) : option Z := stamps r !! "CRTIME"%string.
Definition ATIME (r : FileRecord) : option Z := stamps r !! "ATIME"%string.
Definition MTIME (r : FileRecord) : option Z := stamps r !! "MTIME"%string.
Definition CTIME (r : FileRecord) : option Z := stamps r !! "CTIME"%string.

(** [timedelta(seconds=s)], in nanoseconds. *)
Definition timedelta (seconds : Z) : Z := seconds * 1000000000.

(** [max] and [min] of a list that is not empty. *)
Definition max_of (x : Z) (xs : list Z) : Z := foldl Z.max x xs.
Definition min_of (x : Z) (xs : list Z) : Z := foldl Z.min x xs.

Definition flag_access : string := "Access before creation".
Definition flag_modified : string := "Modified before creation".
Definition flag_rapid : string := "Rapid timestamp activity (<2s)".
Definition flag_deleted : string := "Deleted file accessed".

(** [a < c], guarded by [pd.notna] of both. *)
Definition earlier (a c : option Z) : bool :=
  match c, a with
  | Some c', Some a' => bool_decide (a' < c')
  | _, _ => false
  end.

(** The largest [Timedelta], in nanoseconds: [2^63 - 1]. *)
Definition Timedelta_max : Z := 9223372036854775807.

(** [hi - lo] on two timestamps with [lo <= hi]: [None] when the
    difference is past [Timedelta_max] and the subtraction raises
    [OutOfBoundsDatetime]. *)
Definition sub_timestamps (hi lo : Z) : option Z :=
  if bool_decide (hi - lo ≤ Timedelta_max) then Some (hi - lo) else None.

(** [len(times) >= 3] and [max(times) - min(times) < timedelta(seconds=2)];
    the empty list fails the first test, and the subtraction is made only
    when the first test holds.  [None] when the subtraction raises. *)
Definition rapid (times : list Z) : option bool :=
  match times with
  | [] => Some false
  | x :: xs =>
      if bool_decide (3 ≤ length times)%nat then
        d ← sub_timestamps (max_of x xs) (min_of x xs);
        Some (bool_decide (d < timedelta 2))
      else Some false
  end.

(** The list [[c,a,m,t]] of the third rule. *)
Definition timestamps (r : FileRecord) : list (option Z) :=
  [CRTIME r; ATIME r; MTIME r; CTIME r].

(** The body of the loop over [df.iterrows()]: the list [flags] of one
    row, each [append] in its turn; [None] when the third rule raises. *)
Definition row_flags (r : FileRecord) : option (list string) :=
  let c := CRTIME r in
  let a := ATIME r in
  let m := MTIME r in
  let times := omap id (timestamps r) in
  match rapid times with
  | None => None
  | Some is_rapid =>
      Some ((if earlier a c then [flag_access] else [])
            ++ (if earlier m c then [flag_modified] else [])
            ++ (if is_rapid then [flag_rapid] else [])
            ++ (if rec_deleted r && bool_decide (is_Some a)
                then [flag_deleted] else []))
  end.

(** [detect] assigns the column [flags], then [suspicious] from it, once
    the loop over the rows is through; when a row raises, nothing catches
    it and no column is assigned: [None]. *)
Definition detect (df : FileTable) : option FileTable :=
  flags_all ← mapM row_flags (rows df);
  Some {| rows := rows df;
          flags := Some flags_all;
          suspicious :=
            Some ((λ x, bool_decide (0 < length x)%nat) <$> flags_all) |}.

(** ** [main], from [load_csv] to [detect]

    The menu before and the report after are left out.  The result is the
    pair [(df_events, df_files)] handed to the report. *)
Definition main (upper : string → string) (file : option CsvFrame)
  : error + (list Event * FileTable) :=
  match load_csv file with
  | inl e => inl e
  | inr df_events =>
      match build_file_table upper df_events with
      | None => inl IndexError
      | Some rs =>
          match detect (DataFrame rs) with
          | None => inl OutOfBoundsDatetime
          | Some df_files => inr (df_events, df_files)
          end
      end
  end.

(** ** Reading a file table *)

(** The record of a path, if the table has one. *)
Definition find_record (p : option string) (rs : list FileRecord)
  : option FileRecord :=
  snd <$> list_find (λ r, rec_path r = p) rs.

(** The timestamp field [k] of the record of path [p]: [None] when there is
    no such record or it has no such field. *)
Definition timestamp (rs : list FileRecord) (p : option string) (k : string)
  : option Z :=
  r ← find_record p rs; stamps r !! k.

(** The four kinds of timestamp [detect] reads. *)
Definition kinds : list string := ["CRTIME"; "ATIME"; "MTIME"; "CTIME"]%string.


(** A record on which the third rule raises: three timestamps or more,
    two of them further apart than a [Timedelta] holds. *)
Definition out_of_bounds (r : FileRecord) : Prop :=
  (3 ≤ length (filter is_Some (timestamps r)))%nat
  ∧ ∃ x y, Some x ∈ timestamps r ∧ Some y ∈ timestamps r
           ∧ Timedelta_max < y - x.

(** The paths of the events that have a time. *)
Definition valid_paths (df : list Event) : list (option string) :=
  path <$> filter (λ e, is_Some (time e)) df.

(** ** Sample frames *)

(** A frame of one event, whose time does not parse. *)
Definition csv_unparseable : CsvFrame :=
  {| columns := required;
     csv_rows := [ {| csv_time := None; csv_type := "ATIME";
                      csv_path := Some "/a"%string; csv_partition := "P";
                      csv_inode := 7; csv_size := 42;
                      csv_deleted := "True" |} ] |}.

Definition ev_unparseable : Event :=
  {| time := None; type := "ATIME"; path := Some "/a"%string;
     partition := "P"; inode := 7; size := 42; deleted := true |}.

(** An event of a file that is not deleted. *)
Definition ev (t : option Z) (ty p : string) : Event :=
  {| time := t; type := ty; path := Some p; partition := "P"; inode := 1;
     size := 0; deleted := false |}.

(** A header without [path] and without [size]. *)
Definition csv_no_path : CsvFrame :=
  {| columns := ["time"; "type"; "partition"; "inode"; "deleted"]%string;
     csv_rows := [] |}.

(** 2023-01-01T00:00:00Z, in nanoseconds since the epoch. *)
Definition T0 : Z := 1672531200000000000.

(** The four events of one file, by their times; [None] leaves the time
    unparseable. *)
Definition doc_events (c m a t : option Z) : list Event :=
  [ ev c "CRTIME" "/home/user/doc.txt"; ev m "MTIME" "/home/user/doc.txt";
    ev a "ATIME" "/home/user/doc.txt"; ev t "CTIME" "/home/user/doc.txt" ].

(** The column [flags] after consolidation and detection. *)
Definition flags_of (df : list Event) : option (list (list string)) :=
  rs ← build_file_table ascii_upper df;
  df_files ← detect (DataFrame rs);
  flags df_files.

(** A file of four rows, out of order, one without a parseable time, and
    with a column beyond the required ones. *)
Definition csv_mixed : CsvFrame :=
  {| columns := required ++ ["note"]%string;
     csv_rows :=
       [ {| csv_time := Some 30; csv_type := "CRTIME";
            csv_path := Some "/b"%string; csv_partition := "P";
            csv_inode := 2; csv_size := 10; csv_deleted := "false" |};
         {| csv_time := None; csv_type := "ATIME";
            csv_path := Some "/a"%string; csv_partition := "P";
            csv_inode := 1; csv_size := 5; csv_deleted := "TRUE" |};
         {| csv_time := Some 20; csv_type := "MTIME";
            csv_path := Some "/a"%string; csv_partition := "P";
            csv_inode := 1; csv_size := 5; csv_deleted := "yes" |};
         {| csv_time := Some 10; csv_type := "mtime";
            csv_path := Some "/a"%string; csv_partition := "Q";
            csv_inode := 9; csv_size := 7; csv_deleted := "0" |} ] |}.

(** The frame [load_csv] makes of it. *)
Definition evs_mixed : list Event :=
  [ {| time := Some 10; type := "mtime"; path := Some "/a"%string;
       partition := "Q"; inode := 9; size := 7; deleted := false |};
    {| time := Some 20; type := "MTIME"; path := Some "/a"%string;
       partition := "P"; inode := 1; size := 5; deleted := true |};
    {| time := Some 30; type := "CRTIME"; path := Some "/b"%string;
       partition := "P"; inode := 2; size := 10; deleted := false |};
    {| time := None; type := "ATIME"; path := Some "/a"%string;
       partition := "P"; inode := 1; size := 5; deleted := true |} ].

(** The file records [build_file_table] makes of it. *)
Definition rs_mixed : list FileRecord :=
  [ {| rec_path := Some "/a"%string; rec_partition := "Q"; rec_inode := 9;
       rec_size := 7; rec_deleted := false;
       stamps := {[ "MTIME"%string := 20 ]} |};
    {| rec_path := Some "/b"%string; rec_partition := "P"; rec_inode := 2;
       rec_size := 10; rec_deleted := false;
       stamps := {[ "CRTIME"%string := 30 ]} |} ].

(** * The extractor, [assets/Extractor.py]

    The file system is that of [pytsk3], read through the attributes the
    code reads.  A directory is the list of the entries its iteration
    gives, which is taken not to fail. *)

Module Extractor.

Definition SCAN_LIMIT : Z := 10000.

(** [entry.info.meta]: [addr], [size], the four times, whether [type] is
    [TSK_FS_META_TYPE_DIR], and whether [flags] has the bit
    [TSK_FS_META_FLAG_UNALLOC]. *)
Record Meta := {
  addr : Z;
  meta_size : Z;
  is_dir : bool;
  unalloc : bool;
  atime : Z;
  mtime : Z;
  ctime : Z;
  crtime : Z
}.

(** An entry: its name, decoded, [None] when [entry.info.name] is empty or
    the decoding raises; its meta, [None] when there is none; and what
    [entry.as_directory()] gives, [None] when it raises. *)
Inductive Entry :=
  | mkEntry (name : option string) (meta : option Meta)
            (as_directory : option Directory)
with Directory :=
  | dir_nil
  | dir_cons (entry : Entry) (rest : Directory).

Definition entry_name (e : Entry) : option string :=
  match e with mkEntry name _ _ => name end.
Definition entry_meta (e : Entry) : option Meta :=
  match e with mkEntry _ meta _ => meta end.

Fixpoint dir_of_list (l : list Entry) : Directory :=
  match l with
  | [] => dir_nil
  | e :: l' => dir_cons e (dir_of_list l')
  end.

(** The entries of a directory, in the order of its iteration. *)
Fixpoint entries (d : Directory) : list Entry :=
  match d with
  | dir_nil => []
  | dir_cons e rest => e :: entries rest
  end.

(** [walk_directory]: the pairs it yields, in order, and the counter it
    leaves.  [counter] is the one cell of the default argument
    [counter=[0]], which all the calls of a process share.  [walk_entry]
    is the body of the loop.

    [depth] is the number of walks the interpreter still lets nest below
    this one: its recursion limit, less the frames in use.  A walk nested
    deeper raises [RecursionError] as it starts, which the
    [except Exception: pass] around [yield from] swallows: the directory
    has been yielded and counted, and is not entered. *)
Fixpoint walk_directory (depth : nat) (directory : Directory)
  (parent_path : string) (counter : Z) {struct directory}
  : list (Entry * string) * Z :=
  match directory with
  | dir_nil => ([], counter)
  | dir_cons entry rest =>
      if bool_decide (counter >= SCAN_LIMIT) then ([], counter)
      else
        let '(ys, counter) := walk_entry depth entry parent_path counter in
        let '(zs, counter) := walk_directory depth rest parent_path counter in
        (ys ++ zs, counter)
  end
with walk_entry (depth : nat) (entry : Entry) (parent_path : string)
  (counter : Z) {struct entry} : list (Entry * string) * Z :=
  match entry with
  | mkEntry None _ _ => ([], counter)
  | mkEntry (Some name) meta sub =>
      if bool_decide (name ∈ ["."; ".."]%string) then ([], counter)
      else
        let full_path := (parent_path +:+ name)%string in
        let counter := counter + 1 in
        match meta, sub with
        | Some m, Some subdir =>
            if is_dir m then
              match depth with
              | O => ([(entry, full_path)], counter)
              | S depth' =>
                  let '(ys, counter) :=
                    walk_directory depth' subdir (full_path +:+ "/")%string
                      counter in
                  ((entry, full_path) :: ys, counter)
              end
            else ([(entry, full_path)], counter)
        | _, _ => ([(entry, full_path)], counter)
        end
  end.

(** The same traversal without the scan limit: every named entry under
    the directory that the walk can reach at this [depth], in the order of
    the walk. *)
Fixpoint walk_all (depth : nat) (directory : Directory)
  (parent_path : string) {struct directory} : list (Entry * string) :=
  match directory with
  | dir_nil => []
  | dir_cons entry rest =>
      walk_all_entry depth entry parent_path
      ++ walk_all depth rest parent_path
  end
with walk_all_entry (depth : nat) (entry : Entry) (parent_path : string)
  {struct entry} : list (Entry * string) :=
  match entry with
  | mkEntry None _ _ => []
  | mkEntry (Some name) meta sub =>
      if bool_decide (name ∈ ["."; ".."]%string) then []
      else
        let full_path := (parent_path +:+ name)%string in
        match meta, sub with
        | Some m, Some subdir =>
            if is_dir m then
              match depth with
              | O => [(entry, full_path)]
              | S depth' =>
                  (entry, full_path)
                  :: walk_all depth' subdir (full_path +:+ "/")%string
              end
            else [(entry, full_path)]
        | _, _ => [(entry, full_path)]
        end
  end.

(** [descends d dirs e]: the entry [e] lies in the directory [d] under the
    chain of directories named [dirs], each an entry with a name other
    than the dot names and a directory meta, opened by [as_directory]. *)
Inductive descends : Directory → list string → Entry → Prop :=
  | descends_here d e : e ∈ entries d → descends d [] e
  | descends_sub d name m sub dirs e :
      mkEntry (Some name) (Some m) (Some sub) ∈ entries d →
      is_dir m = true →
      name ∉ ["."; ".."]%string →
      descends sub dirs e →
      descends d (name :: dirs) e.

(** The parent path handed to the walk of the directory reached from
    [parent_path] through the directories named [dirs]: each name and a
    slash after it. *)
Fixpoint under (parent_path : string) (dirs : list string) : string :=
  match dirs with
  | [] => parent_path
  | name :: dirs' => under ((parent_path +:+ name) +:+ "/")%string dirs'
  end.

(** A row of the timeline, the dictionary [extract_timeline] appends. *)
Record Row := {
  time : string;
  type : string;
  path : string;
  partition : string;
  inode : Z;
  size : Z;
  deleted : bool
}.

Section Timeline.

(** [datetime.fromtimestamp(int(ts), tz=timezone.utc).isoformat()], [None]
    when it raises. *)
Variable isoformat : Z → option string.

(** [to_utc]; [None] is Python's [None]. *)
Definition to_utc (ts : option Z) : option string :=
  match ts with
  | None => None
  | Some ts => if bool_decide (ts = 0) then None else isoformat ts
  end.

(** The dictionary [timestamps], in its order. *)
Definition timestamps (m : Meta) : list (string * Z) :=
  [("ATIME", atime m); ("MTIME", mtime m); ("CTIME", ctime m);
   ("CRTIME", crtime m)]%string.

(** The rows of one entry: the body of the loop of [extract_timeline]. *)
Definition entry_rows (partition_desc : string) (ep : Entry * string)
  : list Row :=
  match entry_meta ep.1 with
  | None => []
  | Some meta =>
      let inode := addr meta in
      let size := if bool_decide (meta_size meta ≠ 0) then meta_size meta else 0 in
      let deleted := unalloc meta in
      omap (λ '(t_type, t_val),
              match to_utc (Some t_val) with
              | Some t_conv =>
                  if bool_decide (t_conv ≠ ""%string) then
                    Some {| time := t_conv; type := t_type; path := ep.2;
                            partition := partition_desc; inode := inode;
                            size := size; deleted := deleted |}
                  else None
              | None => None
              end)
           (timestamps meta)
  end.

(** [timeline.sort(key=lambda x: x["time"])]: a stable sort by the time
    string, byte by byte. *)
Fixpoint insert_row (r : Row) (l : list Row) : list Row :=
  match l with
  | [] => [r]
  | x :: l' =>
      if String.leb (time r) (time x) then r :: l else x :: insert_row r l'
  end.

Fixpoint sort_rows (l : list Row) : list Row :=
  match l with
  | [] => []
  | r :: l' => insert_row r (sort_rows l')
  end.

(** [extract_timeline], on the root directory [fs.open_dir(path="/")]
    gives: the timeline, and the counter the walk leaves.  [depth] is
    that of [walk_directory]. *)
Definition extract_timeline (depth : nat) (root : Directory)
  (partition_desc : string) (counter : Z) : list Row * Z :=
  let '(walked, counter) := walk_directory depth root "/" counter in
  (sort_rows (walked ≫= entry_rows partition_desc), counter).

End Timeline.

End Extractor.

(** ** A sample file system *)

Definition meta_dir : Extractor.Meta :=
  {| Extractor.addr := 2; Extractor.meta_size := 0;
     Extractor.is_dir := true; Extractor.unalloc := false;
     Extractor.atime := 0; Extractor.mtime := 0; Extractor.ctime := 0;
     Extractor.crtime := 0 |}.

Definition meta_file : Extractor.Meta :=
  {| Extractor.addr := 5; Extractor.meta_size := 12;
     Extractor.is_dir := false; Extractor.unalloc := true;
     Extractor.atime := 100; Extractor.mtime := 0; Extractor.ctime := 300;
     Extractor.crtime := 50 |}.

Definition file (name : string) : Extractor.Entry :=
  Extractor.mkEntry (Some name) (Some meta_file) None.

Definition home : Extractor.Entry :=
  Extractor.mkEntry (Some "home"%string) (Some meta_dir)
    (Some (Extractor.dir_of_list
             [ Extractor.mkEntry (Some ".."%string) (Some meta_dir) None;
               file "a.txt"; file "b.txt" ])).

(** A root with a dot entry, an entry without a name, a directory of two
    files, a directory that does not open, and a file. *)
Definition sample_root : Extractor.Directory :=
  Extractor.dir_of_list
    [ Extractor.mkEntry (Some "."%string) (Some meta_dir) None;
      Extractor.mkEntry None None None;
      home;
      Extractor.mkEntry (Some "broken"%string) (Some meta_dir) None;
      file "z" ].

(** [isoformat] on the three times of [meta_file]. *)
Definition sample_isoformat (ts : Z) : option string :=
  if bool_decide (ts = 50) then Some "1970-01-01T00:00:50+00:00"%string
  else if bool_decide (ts = 100) then Some "1970-01-01T00:01:40+00:00"%string
  else if bool_decide (ts = 300) then Some "1970-01-01T00:05:00+00:00"%string
  else None.

(** What the walk of the directory [d] yields: an entry with a name, other
    than the two dot names, that lies in [d] under a chain of directories,
    with the path the chain gives it. *)
Definition yielded_in (depth : nat) (d : Extractor.Directory) (p : string)
  (x : Extractor.Entry * string) : Prop :=
  ∃ name dirs,
    Extractor.entry_name x.1 = Some name
    ∧ name ≠ "."%string ∧ name ≠ ".."%string
    ∧ Extractor.descends d dirs x.1
    ∧ (length dirs ≤ depth)%nat
    ∧ x.2 = Extractor.under p dirs +:+ name.

(** What the loop yields for the entry [e]: the entry itself, or what the
    walk of its directory yields. *)
Definition yielded_by (depth : nat) (e : Extractor.Entry) (p : string)
  (x : Extractor.Entry * string) : Prop :=
  ∃ name,
    Extractor.entry_name x.1 = Some name
    ∧ name ≠ "."%string ∧ name ≠ ".."%string
    ∧ ((x.1 = e ∧ x.2 = p +:+ name)
       ∨ ∃ n m sub dirs,
           e = Extractor.mkEntry (Some n) (Some m) (Some sub)
           ∧ Extractor.is_dir m = true
           ∧ (n ∉ ["."; ".."]%string)
           ∧ Extractor.descends sub dirs x.1
           ∧ (S (length dirs) ≤ depth)%nat
           ∧ x.2 = Extractor.under ((p +:+ n) +:+ "/") dirs +:+ name).

(** The first row of the timeline of the sample file system. *)
Definition row_sample : Extractor.Row :=
  {| Extractor.time := "1970-01-01T00:00:50+00:00";
     Extractor.type := "CRTIME"; Extractor.path := "/home/a.txt";
     Extractor.partition := "P"; Extractor.inode := 5;
     Extractor.size := 12; Extractor.deleted := true |}.

(** The order of the timeline: by the time string, byte by byte. *)
Definition row_le (a b : Extractor.Row) : Prop :=
  String.leb (Extractor.time a) (Extractor.time b) = true.

(** The table a run hands over for [csv_mixed]. *)
Definition tbl_mixed : FileTable :=
  {| rows := rs_mixed; flags := Some [[]; []];
     suspicious := Some [false; false] |}.

(** ** Sample file tables *)

(** Four timestamps within two seconds. *)
Definition rec_rapid : FileRecord :=
  {| rec_path := Some "/r"%string; rec_partition := "P"; rec_inode := 3;
     rec_size := 1; rec_deleted := false;
     stamps := {[ "CRTIME"%string := T0; "ATIME"%string := T0 + 1;
                  "MTIME"%string := T0 + 2;
                  "CTIME"%string := T0 + 1999999999 ]} |}.

(** A deleted file, read one nanosecond before its creation. *)
Definition rec_access : FileRecord :=
  {| rec_path := Some "/s"%string; rec_partition := "P"; rec_inode := 4;
     rec_size := 1; rec_deleted := true;
     stamps := {[ "CRTIME"%string := T0; "ATIME"%string := T0 - 1 ]} |}.

(** Only a modification time. *)
Definition rec_plain : FileRecord :=
  {| rec_path := Some "/t"%string; rec_partition := "P"; rec_inode := 5;
     rec_size := 1; rec_deleted := false;
     stamps := {[ "MTIME"%string := T0 ]} |}.

(** Timestamps of 1700-01-01, 2200-01-01 and 1970-01-01: each is a valid
    [Timestamp], the first two are more than [Timedelta_max] apart. *)
Definition rec_far : FileRecord :=
  {| rec_path := Some "/u"%string; rec_partition := "P"; rec_inode := 6;
     rec_size := 1; rec_deleted := false;
     stamps := {[ "CRTIME"%string := -8520336000000000000;
                  "MTIME"%string := 7258118400000000000;
                  "ATIME"%string := 0 ]} |}.

Definition tbl_before : FileTable := DataFrame [rec_rapid; rec_access; rec_plain].


(** What [detect] makes of it. *)
Definition tbl_after : FileTable :=
  {| rows := [rec_rapid; rec_access; rec_plain];
     flags := Some [[flag_rapid]; [flag_access; flag_deleted]; []];
     suspicious := Some [true; true; false] |}.

(** * Properties *)

(** ** Grouping *)

Lemma group_keys_perm df : group_keys df ≡ₚ remove_dups (path <$> df).
Proof. apply merge_sort_Permutation. Qed.

Lemma elem_of_group_keys k df : k ∈ group_keys df ↔ k ∈ path <$> df.
Proof. by rewrite group_keys_perm, elem_of_remove_dups. Qed.

Lemma NoDup_group_keys df : NoDup (group_keys df).
Proof. rewrite group_keys_perm. apply NoDup_remove_dups. Qed.

Lemma length_group_keys df :
  length (group_keys df) = length (remove_dups (path <$> df)).
Proof. by rewrite group_keys_perm. Qed.

Lemma group_of_app k df1 df2 :
  group_of k (df1 ++ df2) = group_of k df1 ++ group_of k df2.
Proof. apply filter_app. Qed.

Lemma group_of_nil_iff k df : group_of k df = [] ↔ k ∉ path <$> df.
Proof.
  unfold group_of. induction df as [|e df IH]; simpl.
  - split; [intros _; apply not_elem_of_nil | done].
  - rewrite filter_cons, not_elem_of_cons. case_decide as Hk.
    + split; [done | intros [Hne _]; by destruct Hne].
    + rewrite IH. split; [intros H; split; [congruence | done] | by intros [_ H]].
Qed.

Lemma head_group_of_fresh k pre e post :
  path e = k → (∀ e', e' ∈ pre → path e' ≠ k) →
  head (group_of k (pre ++ e :: post)) = Some e.
Proof.
  intros He Hpre. rewrite group_of_app.
  assert (group_of k pre = []) as ->.
  { apply group_of_nil_iff. intros (e' & Heq & Hin)%list_elem_of_fmap.
    by apply (Hpre e' Hin). }
  simpl. unfold group_of. rewrite filter_cons. by rewrite decide_True.
Qed.

(** ** Consolidation *)

Lemma mapM_fmap_option {A B C} (f : B → option C) (g : A → B) (l : list A) :
  mapM f (g <$> l) = mapM (f ∘ g) l.
Proof.
  induction l as [|x l IH]; csimpl; [done |].
  destruct (f (g x)); simpl; [| done].
  f_equal. exact IH.
Qed.

Lemma find_record_cons p r rs :
  find_record p (r :: rs)
  = if decide (rec_path r = p) then Some r else find_record p rs.
Proof.
  unfold find_record. simpl. case_decide; [done |].
  by destruct (list_find _ rs) as [[i x]|].
Qed.

Lemma find_record_Some p rs r :
  find_record p rs = Some r → r ∈ rs ∧ rec_path r = p.
Proof.
  induction rs as [|r' rs IH]; [done |].
  rewrite find_record_cons. case_decide.
  - intros [= ->]. split; [apply list_elem_of_here | done].
  - intros [Hin Hp]%IH. split; [by apply list_elem_of_further | done].
Qed.

Section ConsolidationFacts.

Variable upper : string → string.

Lemma observations_app p k df1 df2 :
  observations upper p k (df1 ++ df2)
  = observations upper p k df1 ++ observations upper p k df2.
Proof. apply omap_app. Qed.

Lemma observations_group_of p k df :
  observations upper p k (group_of p df) = observations upper p k df.
Proof.
  unfold observations, group_of. induction df as [|e df IH]; [done |].
  rewrite filter_cons. destruct (decide (path e = p)) as [Hp|Hp]; csimpl.
  - by rewrite IH.
  - rewrite IH. rewrite decide_False; [done | by intros [? _]].
Qed.

Lemma observations_nil p k df :
  (∀ e, e ∈ df → path e = p → upper (type e) = k → time e = None) →
  observations upper p k df = [].
Proof.
  unfold observations. induction df as [|e df IH]; intros H; [done |].
  csimpl. rewrite IH by (intros; apply H; [by apply list_elem_of_further | done..]).
  case_decide as Hd; [| done].
  destruct Hd as [Hp Hk]. by rewrite (H e (list_elem_of_here _ _) Hp Hk).
Qed.

(** What the loop over the rows of a group leaves under the key [k]: the
    last time written under it, or else what was there. *)
Lemma foldl_set_stamp_lookup p k g m :
  (∀ e, e ∈ g → path e = p) →
  foldl (set_stamp upper) m g !! k
  = match last (observations upper p k g) with
    | Some t => Some t
    | None => m !! k
    end.
Proof.
  revert m. induction g as [|e g IH]; intros m Hg; [done |].
  csimpl. rewrite IH by (intros; apply Hg; by apply list_elem_of_further).
  pose proof (Hg e (list_elem_of_here _ _)) as Hp.
  unfold set_stamp. destruct (time e) as [t|] eqn:Ht.
  - case_decide as Hd.
    + destruct Hd as [_ <-]. rewrite last_cons.
      destruct (last _); [done | by rewrite lookup_insert_eq].
    + destruct (last _); [done |].
      rewrite lookup_insert_ne; [done | intros Hk; by apply Hd].
  - by case_decide.
Qed.

Lemma foldl_set_stamp_no_time g m :
  (∀ e, e ∈ g → time e = None) → foldl (set_stamp upper) m g = m.
Proof.
  revert m. induction g as [|e g IH]; intros m Hg; [done |].
  simpl. rewrite IH by (intros; apply Hg; by apply list_elem_of_further).
  unfold set_stamp. by rewrite (Hg e (list_elem_of_here _ _)).
Qed.

Lemma record_at_path df k r : record_at upper df k = Some r → rec_path r = k.
Proof.
  unfold record_at, build_record. destruct (head _); [| done].
  simpl. by intros [= <-].
Qed.

Lemma record_at_None df k : record_at upper df k = None ↔ k ∉ path <$> df.
Proof.
  rewrite <-group_of_nil_iff. unfold record_at, build_record.
  destruct (group_of k df); simpl; split; done.
Qed.

Lemma record_at_stamps df p r k :
  record_at upper df p = Some r →
  stamps r !! k = last (observations upper p k df).
Proof.
  unfold record_at, build_record. destruct (head _); [| done].
  simpl. intros [= <-]. simpl.
  rewrite (foldl_set_stamp_lookup p k).
  - rewrite observations_group_of, lookup_empty. by destruct (last _).
  - unfold group_of. by intros e' [? _]%list_elem_of_filter.
Qed.

Lemma build_file_table_mapM df :
  build_file_table upper df = mapM (record_at upper df) (group_keys df).
Proof. unfold build_file_table, groupby. by rewrite mapM_fmap_option. Qed.

(** [build_file_table] always returns: no group is empty. *)
Lemma build_file_table_total df :
  ∃ rs, build_file_table upper df = Some rs
        ∧ Forall2 (λ k r, record_at upper df k = Some r) (group_keys df) rs.
Proof.
  assert (is_Some (build_file_table upper df)) as [rs Hrs].
  { rewrite build_file_table_mapM. apply mapM_is_Some_2, Forall_forall.
    intros k Hk%elem_of_group_keys. simpl.
    destruct (record_at upper df k) eqn:E; [done |].
    by apply record_at_None in E. }
  exists rs. split; [done |].
  rewrite build_file_table_mapM in Hrs. by apply mapM_Some_1.
Qed.

Lemma build_file_table_Forall2 df rs :
  build_file_table upper df = Some rs →
  Forall2 (λ k r, record_at upper df k = Some r) (group_keys df) rs.
Proof. rewrite build_file_table_mapM. apply mapM_Some_1. Qed.

Lemma build_file_table_paths df rs :
  build_file_table upper df = Some rs → rec_path <$> rs = group_keys df.
Proof.
  intros H%build_file_table_Forall2.
  induction H as [|k r ks rs Hr _ IH]; [done |].
  csimpl. by rewrite IH, (record_at_path _ _ _ Hr).
Qed.

Lemma find_record_Forall2 df p ks rs :
  Forall2 (λ k r, record_at upper df k = Some r) ks rs →
  find_record p rs = if decide (p ∈ ks) then record_at upper df p else None.
Proof.
  induction 1 as [|k r ks rs Hr _ IH]; [done |].
  rewrite find_record_cons, (record_at_path _ _ _ Hr), IH.
  destruct (decide (k = p)) as [->|Hk].
  - by rewrite decide_True by apply list_elem_of_here.
  - destruct (decide (p ∈ ks)).
    + by rewrite decide_True by (by apply list_elem_of_further).
    + rewrite decide_False; [done |].
      rewrite not_elem_of_cons. split; congruence.
Qed.

(** The record found under a path is the one made from its group. *)
Lemma find_record_spec df rs p :
  build_file_table upper df = Some rs →
  find_record p rs = record_at upper df p.
Proof.
  intros H%build_file_table_Forall2.
  rewrite (find_record_Forall2 df p _ _ H). case_decide as Hp; [done |].
  symmetry. apply record_at_None. by rewrite <-elem_of_group_keys.
Qed.

(** A timestamp field holds the last time written for its path and kind,
    and is absent when none was. *)
Lemma timestamp_spec df rs p k :
  build_file_table upper df = Some rs →
  timestamp rs p k = last (observations upper p k df).
Proof.
  intros H. unfold timestamp. rewrite (find_record_spec df rs p H).
  destruct (record_at upper df p) as [r|] eqn:E; simpl.
  - by apply record_at_stamps.
  - apply record_at_None, group_of_nil_iff in E.
    by rewrite <-observations_group_of, E.
Qed.

End ConsolidationFacts.

(** ** Claims on consolidation *)

Lemma record_at_seed upper pre e post :
  ∃ r, record_at upper (pre ++ e :: post) (path e) = Some r
       ∧ ((∀ e', e' ∈ pre → path e' ≠ path e) →
          rec_partition r = partition e ∧ rec_inode r = inode e
          ∧ rec_size r = size e ∧ rec_deleted r = deleted e).
Proof.
  destruct (record_at upper (pre ++ e :: post) (path e)) as [r|] eqn:E.
  - exists r. split; [done |]. intros Hpre.
    pose proof (head_group_of_fresh (path e) pre e post eq_refl Hpre) as Hh.
    unfold record_at, build_record in E. rewrite Hh in E. simpl in E.
    by injection E as <-.
  - apply record_at_None in E. exfalso. apply E.
    apply list_elem_of_fmap. exists e. split; [done |].
    apply elem_of_app. right. apply list_elem_of_here.
Qed.

Lemma record_at_other upper pre e post p :
  p ≠ path e →
  record_at upper (pre ++ e :: post) p = record_at upper (pre ++ post) p.
Proof.
  intros Hp. unfold record_at. rewrite !group_of_app.
  unfold group_of at 2. rewrite filter_cons.
  by rewrite decide_False by congruence.
Qed.

Lemma observations_skip upper p k pre e post :
  (path e = p → upper (type e) = k → time e = None) →
  observations upper p k (pre ++ e :: post)
  = observations upper p k (pre ++ post).
Proof.
  intros H. rewrite !observations_app. f_equal.
  unfold observations at 1. csimpl. case_decide as Hd; [| done].
  destruct Hd as [Hp Hk]. by rewrite (H Hp Hk).
Qed.

(** C1, as amended: the number of file records is the number of distinct
    paths among all the events of the frame, those without a parseable time
    included; no two records share a path; and a path whose events all lack
    a parseable time has a record, with no timestamp field. *)
Theorem C1_one_record_per_path (upper : string → string) (df : list Event) :
  ∃ rs, build_file_table upper df = Some rs
    ∧ length rs = length (remove_dups (path <$> df))
    ∧ NoDup (rec_path <$> rs)
    ∧ (∀ p, is_Some (find_record p rs) ↔ p ∈ path <$> df)
    ∧ (∀ p, p ∈ path <$> df →
            (∀ e, e ∈ df → path e = p → time e = None) →
            ∃ r, find_record p rs = Some r ∧ stamps r = ∅).
Proof.
  destruct (build_file_table_total upper df) as (rs & Hrs & HF).
  pose proof (build_file_table_paths upper df rs Hrs) as Hpaths.
  exists rs. split; [done |]. split; [| split; [| split]].
  - rewrite <-length_group_keys, <-Hpaths. by rewrite length_fmap.
  - rewrite Hpaths. apply NoDup_group_keys.
  - intros p. rewrite (find_record_spec upper df rs p Hrs).
    rewrite <-not_eq_None_Some, record_at_None. split.
    + intros H. by destruct (decide (p ∈ path <$> df)).
    + intros H Hn. by apply Hn.
  - intros p Hp Hall. rewrite (find_record_spec upper df rs p Hrs).
    destruct (record_at upper df p) as [r|] eqn:E.
    + exists r. split; [done |].
      unfold record_at, build_record in E. destruct (head _); [| done].
      simpl in E. injection E as <-. simpl.
      apply foldl_set_stamp_no_time.
      intros e' [He Hin]%list_elem_of_filter. by apply Hall.
    + by apply record_at_None in E.
Qed.

(** The claim C1 fails on a frame of one event whose time does not parse:
    the run makes one file record, and no event is valid. *)
Lemma C1_counterexample :
  ∃ evs tbl,
    main ascii_upper (Some csv_unparseable) = inr (evs, tbl)
    ∧ length (rows tbl) = 1%nat
    ∧ length (remove_dups (valid_paths evs)) = 0%nat.
Proof.
  exists [ev_unparseable].
  exists {| rows :=
              [ {| rec_path := Some "/a"%string; rec_partition := "P";
                   rec_inode := 7; rec_size := 42; rec_deleted := true;
                   stamps := ∅ |} ];
            flags := Some [[]];
            suspicious := Some [false] |}.
  split; [| split]; vm_compute; reflexivity.
Qed.

(** The claim C2 fails on the same frame: the event without a parseable
    time reaches [build_file_table], which makes a record from it and takes
    partition, inode, size and deleted from it; without the event there is
    no record. *)
Lemma C2_counterexample :
  load_csv (Some csv_unparseable) = inr [ev_unparseable]
  ∧ time ev_unparseable = None
  ∧ build_file_table ascii_upper [ev_unparseable]
    = Some [ {| rec_path := Some "/a"%string; rec_partition := "P";
                rec_inode := 7; rec_size := 42; rec_deleted := true;
                stamps := ∅ |} ]
  ∧ build_file_table ascii_upper [] = Some [].
Proof. repeat split; vm_compute; reflexivity. Qed.

(** C2, as amended: an event whose time does not parse is not a fatal
    error and sets no timestamp field of any file record, and the records of
    the other paths are what they are without it; but it is not discarded
    before consolidation: its path has a file record, and when it is the
    first event of its path in the frame that record takes partition,
    inode, size and deleted from it. *)
Theorem C2_unparseable_time_kept
  (upper : string → string) (pre : list Event) (e : Event)
  (post : list Event) :
  time e = None →
  ∃ rs rs',
    build_file_table upper (pre ++ e :: post) = Some rs
    ∧ build_file_table upper (pre ++ post) = Some rs'
    ∧ (∀ p k, timestamp rs p k = timestamp rs' p k)
    ∧ (∀ p, p ≠ path e → find_record p rs = find_record p rs')
    ∧ ∃ r, find_record (path e) rs = Some r
           ∧ ((∀ e', e' ∈ pre → path e' ≠ path e) →
              rec_partition r = partition e ∧ rec_inode r = inode e
              ∧ rec_size r = size e ∧ rec_deleted r = deleted e).
Proof.
  intros Ht.
  destruct (build_file_table_total upper (pre ++ e :: post)) as (rs & Hrs & _).
  destruct (build_file_table_total upper (pre ++ post)) as (rs' & Hrs' & _).
  exists rs, rs'. split; [done |]. split; [done |]. split; [| split].
  - intros p k.
    rewrite (timestamp_spec upper _ _ p k Hrs), (timestamp_spec upper _ _ p k Hrs').
    by rewrite observations_skip.
  - intros p Hp.
    rewrite (find_record_spec upper _ _ p Hrs), (find_record_spec upper _ _ p Hrs').
    by apply record_at_other.
  - rewrite (find_record_spec upper _ _ _ Hrs). apply record_at_seed.
Qed.

Lemma C2_unparseable_time_kept_witness :
  time ev_unparseable = None
  ∧ ∃ rs rs',
      build_file_table ascii_upper
        ([ev (Some 3) "CRTIME" "/b"] ++ ev_unparseable
           :: [ev None "MTIME" "/a"]) = Some rs
      ∧ build_file_table ascii_upper
          ([ev (Some 3) "CRTIME" "/b"] ++ [ev None "MTIME" "/a"]) = Some rs'
      ∧ (∀ p k, timestamp rs p k = timestamp rs' p k)
      ∧ (∀ p, p ≠ path ev_unparseable → find_record p rs = find_record p rs')
      ∧ ∃ r, find_record (path ev_unparseable) rs = Some r
             ∧ ((∀ e', e' ∈ [ev (Some 3) "CRTIME" "/b"] →
                       path e' ≠ path ev_unparseable) →
                rec_partition r = partition ev_unparseable
                ∧ rec_inode r = inode ev_unparseable
                ∧ rec_size r = size ev_unparseable
                ∧ rec_deleted r = deleted ev_unparseable).
Proof.
  split; [reflexivity |].
  exact (C2_unparseable_time_kept ascii_upper [ev (Some 3) "CRTIME" "/b"]
           ev_unparseable [ev None "MTIME" "/a"] eq_refl).
Defined.

(** C6: consolidation is last-write-wins.  When an event of some path and
    kind has a time, and no event after it in the frame has a time for the
    same path and kind, the timestamp field of that kind in the record of
    that path is the time of this event, whatever the events before it
    wrote. *)
Theorem C6_last_write_wins
  (upper : string → string) (pre : list Event) (e : Event)
  (post : list Event) (t : Z) :
  time e = Some t →
  (∀ e', e' ∈ post → path e' = path e →
         upper (type e') = upper (type e) → time e' = None) →
  ∃ rs, build_file_table upper (pre ++ e :: post) = Some rs
        ∧ timestamp rs (path e) (upper (type e)) = Some t.
Proof.
  intros Ht Hpost.
  destruct (build_file_table_total upper (pre ++ e :: post)) as (rs & Hrs & _).
  exists rs. split; [done |].
  rewrite (timestamp_spec upper _ _ _ _ Hrs).
  rewrite observations_app. change (e :: post) with ([e] ++ post).
  rewrite observations_app, (observations_nil upper _ _ post Hpost).
  rewrite app_nil_r. unfold observations at 2. csimpl.
  rewrite decide_True by done. rewrite Ht. apply last_snoc.
Qed.

Lemma C6_last_write_wins_witness :
  time (ev (Some 2) "atime" "/a") = Some 2
  ∧ (∀ e', e' ∈ [ev (Some 5) "MTIME" "/a"; ev None "ATIME" "/a";
                 ev (Some 7) "ATIME" "/b"] →
           path e' = path (ev (Some 2) "atime" "/a") →
           ascii_upper (type e') = ascii_upper (type (ev (Some 2) "atime" "/a")) →
           time e' = None)
  ∧ ∃ rs,
      build_file_table ascii_upper
        ([ev (Some 9) "ATIME" "/a"] ++ ev (Some 2) "atime" "/a"
           :: [ev (Some 5) "MTIME" "/a"; ev None "ATIME" "/a";
               ev (Some 7) "ATIME" "/b"]) = Some rs
      ∧ timestamp rs (path (ev (Some 2) "atime" "/a"))
          (ascii_upper (type (ev (Some 2) "atime" "/a"))) = Some 2.
Proof.
  assert (∀ e', e' ∈ [ev (Some 5) "MTIME" "/a"; ev None "ATIME" "/a";
                      ev (Some 7) "ATIME" "/b"] →
           path e' = path (ev (Some 2) "atime" "/a") →
           ascii_upper (type e') = ascii_upper (type (ev (Some 2) "atime" "/a")) →
           time e' = None) as Hpost.
  { intros e' Hin. repeat (apply elem_of_cons in Hin as [->|Hin]);
      [vm_compute; congruence.. | by apply elem_of_nil in Hin]. }
  split; [reflexivity |]. split; [exact Hpost |].
  exact (C6_last_write_wins ascii_upper [ev (Some 9) "ATIME" "/a"]
           (ev (Some 2) "atime" "/a") _ 2 eq_refl Hpost).
Defined.

(** C10: an event whose upper-cased type is none of CRTIME, ATIME, MTIME
    and CTIME raises no error in consolidation and sets none of these four
    fields: each has the value it has without the event.  The path of the
    event has a file record, and when the event is the first of its path
    in the frame the record takes partition, inode, size and deleted from
    it. *)
Theorem C10_unknown_type
  (upper : string → string) (pre : list Event) (e : Event)
  (post : list Event) :
  upper (type e) ∉ kinds →
  ∃ rs rs',
    build_file_table upper (pre ++ e :: post) = Some rs
    ∧ build_file_table upper (pre ++ post) = Some rs'
    ∧ (∀ p k, k ∈ kinds → timestamp rs p k = timestamp rs' p k)
    ∧ ∃ r, find_record (path e) rs = Some r
           ∧ ((∀ e', e' ∈ pre → path e' ≠ path e) →
              rec_partition r = partition e ∧ rec_inode r = inode e
              ∧ rec_size r = size e ∧ rec_deleted r = deleted e).
Proof.
  intros Hk.
  destruct (build_file_table_total upper (pre ++ e :: post)) as (rs & Hrs & _).
  destruct (build_file_table_total upper (pre ++ post)) as (rs' & Hrs' & _).
  exists rs, rs'. split; [done |]. split; [done |]. split.
  - intros p k Hin.
    rewrite (timestamp_spec upper _ _ p k Hrs), (timestamp_spec upper _ _ p k Hrs').
    f_equal. apply observations_skip.
    intros _ Heq. exfalso. apply Hk. by rewrite Heq.
  - rewrite (find_record_spec upper _ _ _ Hrs). apply record_at_seed.
Qed.

Lemma C10_unknown_type_witness :
  (ascii_upper (type (ev (Some 4) "birth" "/n")) ∉ kinds)
  ∧ ∃ rs rs',
      build_file_table ascii_upper
        ([ev (Some 1) "CRTIME" "/a"] ++ ev (Some 4) "birth" "/n"
           :: [ev (Some 3) "MTIME" "/n"]) = Some rs
      ∧ build_file_table ascii_upper
          ([ev (Some 1) "CRTIME" "/a"] ++ [ev (Some 3) "MTIME" "/n"]) = Some rs'
      ∧ (∀ p k, k ∈ kinds → timestamp rs p k = timestamp rs' p k)
      ∧ ∃ r, find_record (path (ev (Some 4) "birth" "/n")) rs = Some r
             ∧ ((∀ e', e' ∈ [ev (Some 1) "CRTIME" "/a"] →
                       path e' ≠ path (ev (Some 4) "birth" "/n")) →
                rec_partition r = partition (ev (Some 4) "birth" "/n")
                ∧ rec_inode r = inode (ev (Some 4) "birth" "/n")
                ∧ rec_size r = size (ev (Some 4) "birth" "/n")
                ∧ rec_deleted r = deleted (ev (Some 4) "birth" "/n")).
Proof.
  assert (ascii_upper (type (ev (Some 4) "birth" "/n")) ∉ kinds) as Hk.
  { vm_compute. intros Hin.
    repeat (apply elem_of_cons in Hin as [Hin|Hin]; [discriminate Hin |]).
    by apply elem_of_nil in Hin. }
  split; [exact Hk |].
  exact (C10_unknown_type ascii_upper [ev (Some 1) "CRTIME" "/a"]
           (ev (Some 4) "birth" "/n") [ev (Some 3) "MTIME" "/n"] Hk).
Defined.

(** ** Claims on [load_csv] *)

Lemma check_columns_Some req cols col :
  check_columns req cols = Some col →
  ∃ pre post, req = pre ++ col :: post
              ∧ (∀ c, c ∈ pre → c ∈ cols) ∧ col ∉ cols.
Proof.
  induction req as [|c req IH]; [done |]. simpl. case_bool_decide as Hc.
  - intros (pre & post & -> & Hpre & Hcol)%IH.
    exists (c :: pre), post. split; [done |]. split; [| done].
    intros c' [->|Hin]%elem_of_cons; [done | by apply Hpre].
  - intros [= ->]. exists [], req. split; [done |]. split; [| done].
    by intros c' Hin%elem_of_nil.
Qed.

Lemma check_columns_None req cols :
  check_columns req cols = None → ∀ c, c ∈ req → c ∈ cols.
Proof.
  induction req as [|c req IH]; [by intros _ c' Hin%elem_of_nil |].
  simpl. case_bool_decide as Hc; [| done].
  intros H c' [->|Hin]%elem_of_cons; [done | by apply IH].
Qed.

(** C5, as amended: when the header lacks one or more required columns,
    [load_csv] ends the run before it reads a row, so that no record is
    built; the report names one missing column, the first in the order of
    [required], and not the others. *)
Theorem C5_missing_column_fatal (upper : string → string) (csv : CsvFrame) :
  (∃ c, c ∈ required ∧ c ∉ columns csv) →
  ∃ col pre post,
    required = pre ++ col :: post
    ∧ (∀ c, c ∈ pre → c ∈ columns csv)
    ∧ (col ∉ columns csv)
    ∧ load_csv (Some csv) = inl (MissingColumn col)
    ∧ main upper (Some csv) = inl (MissingColumn col)
    ∧ report (MissingColumn col) = ("❌ Missing column: " +:+ col)%string.
Proof.
  intros (c & Hreq & Hc).
  destruct (check_columns required (columns csv)) as [col|] eqn:E.
  - destruct (check_columns_Some _ _ _ E) as (pre & post & Heq & Hpre & Hcol).
    exists col, pre, post. unfold main, load_csv. rewrite E. done.
  - destruct Hc. by apply (check_columns_None _ _ E).
Qed.

Lemma C5_missing_column_fatal_witness :
  (∃ c, c ∈ required ∧ c ∉ columns csv_no_path)
  ∧ ∃ col pre post,
      required = pre ++ col :: post
      ∧ (∀ c, c ∈ pre → c ∈ columns csv_no_path)
      ∧ (col ∉ columns csv_no_path)
      ∧ load_csv (Some csv_no_path) = inl (MissingColumn col)
      ∧ main ascii_upper (Some csv_no_path) = inl (MissingColumn col)
      ∧ report (MissingColumn col) = ("❌ Missing column: " +:+ col)%string.
Proof.
  assert (∃ c, c ∈ required ∧ c ∉ columns csv_no_path) as H.
  { exists "path"%string.
    split; apply (bool_decide_unpack _); vm_compute; exact I. }
  split; [exact H |].
  exact (C5_missing_column_fatal ascii_upper csv_no_path H).
Defined.

(** The claim C5 fails on a header that lacks two required columns, [path]
    and [size]: the run ends on a report that names [path] and says nothing
    of [size], so the report does not name every missing column. *)
Lemma C5_counterexample :
  main ascii_upper (Some csv_no_path) = inl (MissingColumn "path")
  ∧ report (MissingColumn "path") = "❌ Missing column: path"%string
  ∧ "size"%string ∈ required
  ∧ ("size"%string ∉ columns csv_no_path)
  ∧ ¬ (∀ c, c ∈ required → c ∉ columns csv_no_path →
            main ascii_upper (Some csv_no_path) = inl (MissingColumn c)).
Proof.
  assert ("size"%string ∈ required) as Hreq
    by (apply (bool_decide_unpack _); vm_compute; exact I).
  assert ("size"%string ∉ columns csv_no_path) as Hmiss
    by (apply (bool_decide_unpack _); vm_compute; exact I).
  split; [vm_compute; reflexivity |]. split; [vm_compute; reflexivity |].
  split; [exact Hreq |]. split; [exact Hmiss |].
  intros H. specialize (H "size"%string Hreq Hmiss). vm_compute in H.
  discriminate H.
Qed.

(** ** Claims on [detect] *)

Lemma max_of_spec x xs :
  max_of x xs ∈ x :: xs ∧ ∀ y, y ∈ x :: xs → y ≤ max_of x xs.
Proof.
  unfold max_of. revert x. induction xs as [|a xs IH]; intros x; simpl.
  - split; [apply list_elem_of_here |].
    intros y [->|Hy%elem_of_nil]%elem_of_cons; [lia | done].
  - destruct (IH (Z.max x a)) as [Hin Hle]. split.
    + apply elem_of_cons in Hin as [Heq|Hin].
      * rewrite Heq. destruct (Z.max_spec x a) as [[_ ->]|[_ ->]].
        -- apply list_elem_of_further, list_elem_of_here.
        -- apply list_elem_of_here.
      * by do 2 apply list_elem_of_further.
    + intros y [->|[->|Hy]%elem_of_cons]%elem_of_cons.
      * etrans; [| apply Hle, list_elem_of_here]. lia.
      * etrans; [| apply Hle, list_elem_of_here]. lia.
      * by apply Hle, list_elem_of_further.
Qed.

Lemma min_of_spec x xs :
  min_of x xs ∈ x :: xs ∧ ∀ y, y ∈ x :: xs → min_of x xs ≤ y.
Proof.
  unfold min_of. revert x. induction xs as [|a xs IH]; intros x; simpl.
  - split; [apply list_elem_of_here |].
    intros y [->|Hy%elem_of_nil]%elem_of_cons; [lia | done].
  - destruct (IH (Z.min x a)) as [Hin Hle]. split.
    + apply elem_of_cons in Hin as [Heq|Hin].
      * rewrite Heq. destruct (Z.min_spec x a) as [[_ ->]|[_ ->]].
        -- apply list_elem_of_here.
        -- apply list_elem_of_further, list_elem_of_here.
      * by do 2 apply list_elem_of_further.
    + intros y [->|[->|Hy]%elem_of_cons]%elem_of_cons.
      * etrans; [apply Hle, list_elem_of_here |]. lia.
      * etrans; [apply Hle, list_elem_of_here |]. lia.
      * by apply Hle, list_elem_of_further.
Qed.


(** When the third rule raises: three times or more, two of them further
    apart than a [Timedelta] holds. *)
Lemma rapid_None times :
  rapid times = None
  ↔ (3 ≤ length times)%nat
    ∧ ∃ x y, x ∈ times ∧ y ∈ times ∧ Timedelta_max < y - x.
Proof.
  destruct times as [|x xs].
  - simpl. split; [done | intros [H _]; simpl in H; lia].
  - destruct (max_of_spec x xs) as [Hmax_in Hmax].
    destruct (min_of_spec x xs) as [Hmin_in Hmin].
    unfold rapid, sub_timestamps.
    case_bool_decide as Hlen; [| split; [done | by intros [? _]]].
    case_bool_decide as Hfit; simpl.
    + split; [done |]. intros (_ & a & b & Ha & Hb & Hab).
      specialize (Hmax b Hb). specialize (Hmin a Ha). lia.
    + split; [| done]. intros _. split; [done |].
      exists (min_of x xs), (max_of x xs). split; [done |]. split; [done | lia].
Qed.

Lemma length_omap_id {A} (l : list (option A)) :
  length (omap id l) = length (filter is_Some l).
Proof.
  induction l as [|[a|] l IH]; [done | |].
  - rewrite filter_cons_True by done. csimpl. by rewrite IH.
  - rewrite filter_cons_False by (by intros [? ?]). done.
Qed.

Lemma elem_of_omap_id {A} (l : list (option A)) (x : A) :
  x ∈ omap id l ↔ Some x ∈ l.
Proof.
  rewrite list_elem_of_omap. split.
  - intros (o & Hin & Ho). simpl in Ho. by subst o.
  - intros Hin. by exists (Some x).
Qed.

Lemma flags_distinct :
  NoDup [flag_access; flag_modified; flag_rapid; flag_deleted].
Proof. by apply (bool_decide_unpack _). Qed.

(** The flags of a row are those of the rules that fire, in the order of
    the rules. *)
Lemma row_flags_sublist r fl :
  row_flags r = Some fl →
  fl `sublist_of` [flag_access; flag_modified; flag_rapid; flag_deleted].
Proof.
  assert (∀ (b : bool) (s : string),
            (if b then [s] else []) `sublist_of` [s]) as Hone.
  { intros [] s; [done | apply sublist_nil_l]. }
  unfold row_flags. destruct (rapid _) as [b|]; [| done]. intros [= <-].
  change [flag_access; flag_modified; flag_rapid; flag_deleted]
    with ([flag_access] ++ [flag_modified] ++ [flag_rapid] ++ [flag_deleted]).
  repeat apply sublist_app; apply Hone.
Qed.

(** Which rule a flag of the list comes from. *)
Lemma elem_of_row_flags r fl f :
  row_flags r = Some fl →
  f ∈ fl
  ↔ (f = flag_access ∧ earlier (ATIME r) (CRTIME r) = true)
    ∨ (f = flag_modified ∧ earlier (MTIME r) (CRTIME r) = true)
    ∨ (f = flag_rapid
       ∧ rapid (omap id (timestamps r)) = Some true)
    ∨ (f = flag_deleted
       ∧ rec_deleted r && bool_decide (is_Some (ATIME r)) = true).
Proof.
  assert (∀ (b : bool) (s : string),
            f ∈ (if b then [s] else []) ↔ f = s ∧ b = true) as Hone.
  { intros [] s; [rewrite list_elem_of_singleton | rewrite elem_of_nil];
      intuition congruence. }
  unfold row_flags. destruct (rapid _) as [b|]; [| done]. intros [= <-].
  rewrite !elem_of_app, !Hone.
  assert (b = true ↔ Some b = Some true) as -> by (split; congruence).
  tauto.
Qed.

Lemma row_flags_None r :
  row_flags r = None ↔ rapid (omap id (timestamps r)) = None.
Proof. unfold row_flags. by destruct (rapid _). Qed.

(** What [detect] returns, when it returns. *)
Lemma detect_Some df df' :
  detect df = Some df' →
  ∃ fl, Forall2 (λ r f, row_flags r = Some f) (rows df) fl
        ∧ df' = {| rows := rows df;
                   flags := Some fl;
                   suspicious :=
                     Some ((λ x, bool_decide (0 < length x)%nat) <$> fl) |}.
Proof.
  unfold detect. destruct (mapM row_flags (rows df)) as [fl|] eqn:E; [| done].
  simpl. intros [= <-]. exists fl. split; [| done]. by apply mapM_Some_1.
Qed.

(** What holds of every row and its list of flags holds along the column
    [detect] assigns. *)
Lemma detect_flags_Forall2 (P : FileRecord → list string → Prop) df df' :
  (∀ r fl, row_flags r = Some fl → P r fl) →
  detect df = Some df' →
  ∃ fl, flags df' = Some fl ∧ Forall2 P (rows df) fl.
Proof.
  intros H (fl & HF & ->)%detect_Some. exists fl. split; [done |].
  eapply Forall2_impl; [exact HF |]. intros r f. apply H.
Qed.

Lemma row_flags_out_of_bounds r : row_flags r = None ↔ out_of_bounds r.
Proof.
  rewrite row_flags_None, rapid_None, length_omap_id. unfold out_of_bounds.
  split; intros (Hlen & x & y & Hx & Hy & Hxy); (split; [done |]);
    exists x, y; by rewrite ?elem_of_omap_id in *.
Qed.

(** [detect] raises exactly when the third rule raises on some row. *)
Lemma detect_None df :
  detect df = None ↔ ∃ r, r ∈ rows df ∧ out_of_bounds r.
Proof.
  unfold detect.
  destruct (mapM row_flags (rows df)) as [fl|] eqn:E; simpl.
  - split; [done |]. intros (r & Hr & Hob%row_flags_out_of_bounds).
    apply mapM_Some_1 in E.
    apply list_elem_of_lookup in Hr as [i Hi].
    destruct (Forall2_lookup_l _ _ _ i r E Hi) as (f & _ & Hf). congruence.
  - split; [| done]. intros _.
    apply mapM_None_1, Exists_exists in E as (r & Hr & Hn).
    exists r. split; [done |]. by apply row_flags_out_of_bounds.
Qed.

#[global] Instance out_of_bounds_dec r : Decision (out_of_bounds r).
Proof.
  destruct (row_flags r) as [fl|] eqn:E.
  - right. intros H%row_flags_out_of_bounds. congruence.
  - left. by apply row_flags_out_of_bounds.
Defined.

(** [detect] returns on a table none of whose records makes the third
    rule raise. *)
Lemma detect_in_bounds df :
  Forall (λ r, ¬ out_of_bounds r) (rows df) → ∃ df', detect df = Some df'.
Proof.
  intros H. destruct (detect df) as [df'|] eqn:E; [by exists df' |].
  apply detect_None in E as (r & Hr & Hob).
  rewrite Forall_forall in H. by destruct (H r Hr).
Qed.

Lemma detect_in_bounds_Forall2 (P : FileRecord → list string → Prop) df :
  (∀ r fl, row_flags r = Some fl → P r fl) →
  Forall (λ r, ¬ out_of_bounds r) (rows df) →
  ∃ df', detect df = Some df'
    ∧ ∃ fl, flags df' = Some fl ∧ Forall2 P (rows df) fl.
Proof.
  intros H (df' & Hd)%detect_in_bounds. exists df'. split; [done |].
  by apply detect_flags_Forall2.
Qed.

Lemma earlier_spec a c :
  earlier a c = true ↔ ∃ c' a', c = Some c' ∧ a = Some a' ∧ a' < c'.
Proof.
  unfold earlier. destruct c as [c'|], a as [a'|];
    rewrite ?bool_decide_eq_true; split;
    try done; try (by intros (? & ? & ? & ? & ?)).
  - intros H. by exists c', a'.
  - by intros (? & ? & [= <-] & [= <-] & ?).
Qed.








(** C7: on a table none of whose records has three timestamps two of
    them further apart than a [Timedelta] holds, [detect] returns, and in
    the table it returns the suspicious cell of a record is
    true exactly when its list of flags is not empty. *)
Theorem C7_suspicious_iff_flagged (df : FileTable) :
  Forall (λ r, ¬ out_of_bounds r) (rows df) →
  ∃ df', detect df = Some df' ∧ ∃ fl su, flags df' = Some fl
    ∧ suspicious df' = Some su
    ∧ length fl = length (rows df')
    ∧ Forall2 (λ f s, s = true ↔ f ≠ []) fl su.
Proof.
  intros (df' & Hd)%detect_in_bounds. exists df'. split; [exact Hd |].
  apply detect_Some in Hd as (fl & HF & ->). exists fl. eexists.
  split; [done |]. split; [done |].
  split; [symmetry; by apply (Forall2_length _ _ _ HF) |].
  apply Forall2_fmap_r, Forall_Forall2_diag, Forall_forall.
  intros f _. destruct f; simpl; split; done.
Qed.

Lemma C7_suspicious_iff_flagged_witness :
  Forall (λ r, ¬ out_of_bounds r) (rows tbl_before)
  ∧ ∃ df', detect tbl_before = Some df' ∧ ∃ fl su, flags df' = Some fl
      ∧ suspicious df' = Some su
      ∧ length fl = length (rows df')
      ∧ Forall2 (λ f s, s = true ↔ f ≠ []) fl su.
Proof.
  assert (Forall (λ r, ¬ out_of_bounds r) (rows tbl_before)) as H
    by (apply (bool_decide_unpack _); vm_compute; exact I).
  split; [exact H |]. exact (C7_suspicious_iff_flagged tbl_before H).
Defined.

Lemma detect_again df df' : detect df = Some df' → detect df' = Some df'.
Proof.
  intros (fl & HF & ->)%detect_Some. unfold detect. simpl.
  by rewrite (mapM_Some_2 _ _ _ HF).
Qed.

(** C8: running [detect] on its own result changes nothing: the second run
    returns, and the columns flags and suspicious, and the whole table, are
    those of the first run. *)
Theorem C8_detect_idempotent (df : FileTable) :
  detect df ≫= detect = detect df
  ∧ ∀ df1, detect df = Some df1 →
           ∃ df2, detect df1 = Some df2
                  ∧ flags df2 = flags df1
                  ∧ suspicious df2 = suspicious df1
                  ∧ df2 = df1.
Proof.
  split.
  - destruct (detect df) as [df1|] eqn:E; [| done]. simpl.
    by apply detect_again in E.
  - intros df1 E. exists df1. by apply detect_again in E.
Qed.

(** C9: on a table none of whose records has three timestamps two of
    them further apart than a [Timedelta] holds, [detect] returns, and in
    the table it returns the list of flags of a record has
    at most four entries, no two of them equal. *)
Theorem C9_at_most_four_distinct_flags (df : FileTable) :
  Forall (λ r, ¬ out_of_bounds r) (rows df) →
  ∃ df', detect df = Some df' ∧ ∃ fl, flags df' = Some fl
    ∧ Forall2 (λ _ f, (length f ≤ 4)%nat ∧ NoDup f) (rows df) fl.
Proof.
  apply detect_in_bounds_Forall2. intros r fl Hfl.
  pose proof (row_flags_sublist r fl Hfl) as Hsub. split.
  - by apply sublist_length in Hsub.
  - exact (sublist_NoDup _ _ flags_distinct Hsub).
Qed.

Lemma C9_at_most_four_distinct_flags_witness :
  Forall (λ r, ¬ out_of_bounds r) (rows tbl_before)
  ∧ ∃ df', detect tbl_before = Some df' ∧ ∃ fl, flags df' = Some fl
      ∧ Forall2 (λ _ f, (length f ≤ 4)%nat ∧ NoDup f) (rows tbl_before) fl.
Proof.
  assert (Forall (λ r, ¬ out_of_bounds r) (rows tbl_before)) as H
    by (apply (bool_decide_unpack _); vm_compute; exact I).
  split; [exact H |]. exact (C9_at_most_four_distinct_flags tbl_before H).
Defined.

(** ** The run as a whole *)

(** Sorting by time keeps every row, those without a time included. *)
Lemma sort_values_time_perm df : sort_values_time df ≡ₚ df.
Proof.
  unfold sort_values_time. rewrite merge_sort_Permutation.
  apply filter_app_complement.
Qed.

Lemma check_columns_present req cols :
  (∀ c, c ∈ req → c ∈ cols) → check_columns req cols = None.
Proof.
  induction req as [|c req IH]; intros H; [done |]. simpl.
  rewrite bool_decide_eq_true_2 by apply H, list_elem_of_here.
  apply IH. intros c' Hin. by apply H, list_elem_of_further.
Qed.

Lemma length_remove_dups_perm (l k : list (option string)) :
  l ≡ₚ k → length (remove_dups l) = length (remove_dups k).
Proof.
  intros H. apply Permutation_length, NoDup_Permutation.
  - apply NoDup_remove_dups.
  - apply NoDup_remove_dups.
  - intros x. by rewrite !elem_of_remove_dups, H.
Qed.

(** With every required column in the header, [load_csv] returns all the
    rows of the file. *)
Lemma load_csv_keeps_rows csv :
  (∀ c, c ∈ required → c ∈ columns csv) →
  ∃ evs, load_csv (Some csv) = inr evs ∧ evs ≡ₚ to_event <$> csv_rows csv.
Proof.
  intros H. unfold load_csv. rewrite (check_columns_present _ _ H).
  eexists. split; [done |]. apply sort_values_time_perm.
Qed.

(** A run on a file whose header has every required column reads all the
    rows of the file and consolidates them into one record for each
    distinct path.  It then ends in one of two ways: [detect] returns and
    the run hands over a table of these records; or [detect] raises
    [OutOfBoundsDatetime], which it does when one of the records has three
    timestamps or more, two of them further apart than a [Timedelta]
    holds. *)
Lemma main_one_record_per_path upper csv :
  (∀ c, c ∈ required → c ∈ columns csv) →
  ∃ evs rs,
    load_csv (Some csv) = inr evs
    ∧ evs ≡ₚ to_event <$> csv_rows csv
    ∧ build_file_table upper evs = Some rs
    ∧ length rs = length (remove_dups (csv_path <$> csv_rows csv))
    ∧ ((∃ tbl, main upper (Some csv) = inr (evs, tbl) ∧ rows tbl = rs
               ∧ ∀ r, r ∈ rs → ¬ out_of_bounds r)
       ∨ (main upper (Some csv) = inl OutOfBoundsDatetime
          ∧ ∃ r, r ∈ rs ∧ out_of_bounds r)).
Proof.
  intros H. destruct (load_csv_keeps_rows csv H) as (evs & Hload & Hperm).
  destruct (build_file_table_total upper evs) as (rs & Hrs & _).
  exists evs, rs. do 3 (split; [done |]). split.
  - pose proof (build_file_table_paths upper evs rs Hrs) as Hp.
    apply (f_equal length) in Hp. rewrite length_fmap in Hp. rewrite Hp.
    rewrite length_group_keys.
    rewrite (length_remove_dups_perm (path <$> evs)
               (path <$> (to_event <$> csv_rows csv))) by (by rewrite Hperm).
    by rewrite <-list_fmap_compose.
  - unfold main. rewrite Hload, Hrs.
    destruct (detect (DataFrame rs)) as [tbl|] eqn:E.
    + left. exists tbl. split; [done |].
      split; [by apply detect_Some in E as (fl & _ & ->) |].
      intros r Hr Hob.
      assert (detect (DataFrame rs) = None) as Hn
        by (apply detect_None; by exists r).
      congruence.
    + right. split; [done |]. by apply detect_None in E.
Qed.

(** ** The rules at their boundaries *)

(** Four timestamps within 1.999 seconds. *)
Example rapid_within_two_seconds :
  flags_of (doc_events (Some T0) (Some (T0 + 500000000))
              (Some (T0 + 1000000000)) (Some (T0 + 1999000000)))
  = Some [[flag_rapid]].
Proof. vm_compute. reflexivity. Qed.

(** A spread of exactly two seconds. *)
Example rapid_exactly_two_seconds :
  flags_of (doc_events (Some T0) (Some (T0 + 500000000))
              (Some (T0 + 1000000000)) (Some (T0 + 2000000000)))
  = Some [[]].
Proof. vm_compute. reflexivity. Qed.

(** Access one nanosecond before creation, and at creation. *)
Example access_one_nanosecond_before :
  flags_of (doc_events (Some T0) None (Some (T0 - 1)) None)
  = Some [[flag_access]].
Proof. vm_compute. reflexivity. Qed.

Example access_at_creation :
  flags_of (doc_events (Some T0) None (Some T0) None) = Some [[]].
Proof. vm_compute. reflexivity. Qed.

(** Creation at [T0], modification half a second later, access one second
    before and metadata change one second after: access precedes
    creation, and the spread is exactly two seconds. *)
Example doc_scenario :
  flags_of (doc_events (Some T0) (Some (T0 + 500000000))
              (Some (T0 - 1000000000)) (Some (T0 + 1000000000)))
  = Some [[flag_access]].
Proof. vm_compute. reflexivity. Qed.

(** Only a modification time. *)
Example only_mtime :
  flags_of (doc_events None (Some T0) None None) = Some [[]].
Proof. vm_compute. reflexivity. Qed.

(** * Further properties of the analyser *)

(** ** [load_csv] *)

(** [load_csv] returns a frame exactly when the file exists and its header
    has every required column; columns beyond these are no obstacle. *)
Theorem load_csv_succeeds_iff (file : option CsvFrame) :
  (∃ evs, load_csv file = inr evs)
  ↔ ∃ csv, file = Some csv ∧ ∀ c, c ∈ required → c ∈ columns csv.
Proof.
  split.
  - intros [evs H]. destruct file as [csv|]; [| done]. exists csv.
    split; [done |]. unfold load_csv in H.
    destruct (check_columns required (columns csv)) eqn:E; [done |].
    by apply check_columns_None.
  - intros (csv & -> & H). destruct (load_csv_keeps_rows csv H) as (evs & ? & _).
    by exists evs.
Qed.

Lemma time_le_valid_trans a b c :
  is_Some (time b) → time_le a b → time_le b c → time_le a c.
Proof.
  unfold time_le. intros [tb Hb]. rewrite Hb.
  destruct (time a), (time c); try done. lia.
Qed.

#[local] Instance time_le_total : Total time_le.
Proof.
  intros a b. unfold time_le.
  destruct (time a), (time b); try (by left). lia.
Qed.

Lemma Sorted_time_le_strong l :
  Forall (λ e, is_Some (time e)) l → Sorted time_le l →
  StronglySorted time_le l.
Proof.
  induction l as [|a l IH]; intros Hv Hs; [constructor |].
  apply Forall_cons in Hv as [Ha Hv]. apply Sorted_inv in Hs as [Hs Hhd].
  specialize (IH Hv Hs). constructor; [done |].
  destruct Hhd as [|b l' Hab]; [constructor |].
  apply StronglySorted_inv in IH as [_ Hb].
  apply Forall_cons in Hv as [Hvb _]. constructor; [done |].
  eapply Forall_impl; [exact Hb |]. intros c Hbc.
  by apply (time_le_valid_trans a b c).
Qed.

(** The rows of a sorted frame that have a time: all of them, in ascending
    order of time. *)
Lemma sort_values_time_valid df :
  let valid := merge_sort time_le (filter (λ e, is_Some (time e)) df) in
  Forall (λ e, is_Some (time e)) valid ∧ StronglySorted time_le valid.
Proof.
  simpl.
  assert (Forall (λ e, is_Some (time e))
            (merge_sort time_le (filter (λ e, is_Some (time e)) df))) as Hv.
  { rewrite merge_sort_Permutation. apply Forall_forall.
    by intros e [? _]%list_elem_of_filter. }
  split; [done |]. apply Sorted_time_le_strong; [done |].
  apply Sorted_merge_sort, _.
Qed.

(** The frame [load_csv] returns holds every row of the file, none dropped:
    first the rows whose time parses, in ascending order of time, then the
    rows whose time does not parse, in their order of the file. *)
Theorem load_csv_sorted (csv : CsvFrame) (evs : list Event) :
  load_csv (Some csv) = inr evs →
  length evs = length (csv_rows csv)
  ∧ evs ≡ₚ to_event <$> csv_rows csv
  ∧ ∃ valid,
      evs = valid ++ filter (λ e, ¬ is_Some (time e)) (to_event <$> csv_rows csv)
      ∧ Forall (λ e, is_Some (time e)) valid
      ∧ StronglySorted time_le valid.
Proof.
  unfold load_csv.
  destruct (check_columns required (columns csv)); [done |].
  intros [= <-].
  pose proof (sort_values_time_perm (to_event <$> csv_rows csv)) as Hp.
  split; [by rewrite Hp, length_fmap |]. split; [done |].
  eexists. split; [reflexivity |]. apply sort_values_time_valid.
Qed.

Lemma load_csv_sorted_witness :
  load_csv (Some csv_mixed) = inr evs_mixed
  ∧ length evs_mixed = length (csv_rows csv_mixed)
  ∧ evs_mixed ≡ₚ to_event <$> csv_rows csv_mixed
  ∧ ∃ valid,
      evs_mixed
      = valid ++ filter (λ e, ¬ is_Some (time e)) (to_event <$> csv_rows csv_mixed)
      ∧ Forall (λ e, is_Some (time e)) valid
      ∧ StronglySorted time_le valid.
Proof.
  assert (load_csv (Some csv_mixed) = inr evs_mixed) as H
    by (vm_compute; reflexivity).
  split; [exact H |]. exact (load_csv_sorted csv_mixed evs_mixed H).
Defined.

Lemma lower_ascii_t c : lower_ascii c = "t"%char ↔ c = "t"%char ∨ c = "T"%char.
Proof.
  destruct c as [[] [] [] [] [] [] [] []]; vm_compute;
    (split; [intros H; (by left) || (by right) || discriminate H
            | intros [H|H]; (done || discriminate H)]).
Qed.

Lemma lower_ascii_r c : lower_ascii c = "r"%char ↔ c = "r"%char ∨ c = "R"%char.
Proof.
  destruct c as [[] [] [] [] [] [] [] []]; vm_compute;
    (split; [intros H; (by left) || (by right) || discriminate H
            | intros [H|H]; (done || discriminate H)]).
Qed.

Lemma lower_ascii_u c : lower_ascii c = "u"%char ↔ c = "u"%char ∨ c = "U"%char.
Proof.
  destruct c as [[] [] [] [] [] [] [] []]; vm_compute;
    (split; [intros H; (by left) || (by right) || discriminate H
            | intros [H|H]; (done || discriminate H)]).
Qed.

Lemma lower_ascii_e c : lower_ascii c = "e"%char ↔ c = "e"%char ∨ c = "E"%char.
Proof.
  destruct c as [[] [] [] [] [] [] [] []]; vm_compute;
    (split; [intros H; (by left) || (by right) || discriminate H
            | intros [H|H]; (done || discriminate H)]).
Qed.

Lemma lower_ascii_y c : lower_ascii c = "y"%char ↔ c = "y"%char ∨ c = "Y"%char.
Proof.
  destruct c as [[] [] [] [] [] [] [] []]; vm_compute;
    (split; [intros H; (by left) || (by right) || discriminate H
            | intros [H|H]; (done || discriminate H)]).
Qed.

Lemma lower_ascii_s c : lower_ascii c = "s"%char ↔ c = "s"%char ∨ c = "S"%char.
Proof.
  destruct c as [[] [] [] [] [] [] [] []]; vm_compute;
    (split; [intros H; (by left) || (by right) || discriminate H
            | intros [H|H]; (done || discriminate H)]).
Qed.

Lemma lower_ascii_1 c : lower_ascii c = "1"%char ↔ c = "1"%char.
Proof.
  destruct c as [[] [] [] [] [] [] [] []]; vm_compute;
    (split; intros H; (done || discriminate H)).
Qed.

Lemma lower_nil s : lower s = ""%string ↔ s = ""%string.
Proof. by destruct s. Qed.

Lemma lower_cons s a w :
  lower s = String a w ↔ ∃ c s', s = String c s' ∧ lower_ascii c = a ∧ lower s' = w.
Proof.
  destruct s as [|c s']; simpl.
  - split; [done | by intros (? & ? & ? & _)].
  - split.
    + intros [= <- <-]. by exists c, s'.
    + by intros (? & ? & [= <- <-] & <- & <-).
Qed.

(** The cell [deleted] counts as true exactly when it is [1], or the word
    [true] or the word [yes] with each letter in either case; no other
    cell does, not one with a space around the word nor [1.0]. *)
Theorem parse_deleted_true_iff (s : string) :
  parse_deleted s = true
  ↔ (∃ t r u e : Ascii.ascii,
       s = String t (String r (String u (String e "")))
       ∧ (t = "t" ∨ t = "T")%char ∧ (r = "r" ∨ r = "R")%char
       ∧ (u = "u" ∨ u = "U")%char ∧ (e = "e" ∨ e = "E")%char)
    ∨ s = "1"%string
    ∨ (∃ y e s' : Ascii.ascii,
         s = String y (String e (String s' ""))
         ∧ (y = "y" ∨ y = "Y")%char ∧ (e = "e" ∨ e = "E")%char
         ∧ (s' = "s" ∨ s' = "S")%char).
Proof.
  unfold parse_deleted. rewrite bool_decide_eq_true.
  rewrite !elem_of_cons, elem_of_nil.
  assert (lower s = "true"%string
          ↔ ∃ t r u e : Ascii.ascii,
              s = String t (String r (String u (String e "")))
              ∧ (t = "t" ∨ t = "T")%char ∧ (r = "r" ∨ r = "R")%char
              ∧ (u = "u" ∨ u = "U")%char ∧ (e = "e" ∨ e = "E")%char) as ->.
  { split.
    - intros (t & s1 & -> & Ht & (r & s2 & -> & Hr & (u & s3 & -> & Hu
              & (e & s4 & -> & He & ->%lower_nil)%lower_cons)%lower_cons)
              %lower_cons)%lower_cons.
      exists t, r, u, e. rewrite <-lower_ascii_t, <-lower_ascii_r,
        <-lower_ascii_u, <-lower_ascii_e. done.
    - intros (t & r & u & e & -> & Ht & Hr & Hu & He). simpl.
      apply lower_ascii_t in Ht. apply lower_ascii_r in Hr.
      apply lower_ascii_u in Hu. apply lower_ascii_e in He.
      by rewrite Ht, Hr, Hu, He. }
  assert (lower s = "1"%string ↔ s = "1"%string) as ->.
  { split.
    - intros (c & s1 & -> & Hc & Hs1)%lower_cons.
      apply (proj1 (lower_ascii_1 c)) in Hc.
      apply (proj1 (lower_nil s1)) in Hs1. by subst.
    - by intros ->. }
  assert (lower s = "yes"%string
          ↔ ∃ y e s' : Ascii.ascii,
              s = String y (String e (String s' ""))
              ∧ (y = "y" ∨ y = "Y")%char ∧ (e = "e" ∨ e = "E")%char
              ∧ (s' = "s" ∨ s' = "S")%char) as ->.
  { split.
    - intros (y & s1 & -> & Hy & (e & s2 & -> & He
              & (c & s3 & -> & Hc & ->%lower_nil)%lower_cons)%lower_cons)
              %lower_cons.
      exists y, e, c.
      rewrite <-lower_ascii_y, <-lower_ascii_e, <-lower_ascii_s. done.
    - intros (y & e & c & -> & Hy & He & Hc). simpl.
      apply lower_ascii_y in Hy. apply lower_ascii_e in He.
      apply lower_ascii_s in Hc. by rewrite Hy, He, Hc. }
  tauto.
Qed.

(** ** [build_file_table] *)

Lemma elem_of_observations upper p k df t :
  t ∈ observations upper p k df
  ↔ ∃ e, e ∈ df ∧ path e = p ∧ upper (type e) = k ∧ time e = Some t.
Proof.
  unfold observations. rewrite list_elem_of_omap. split.
  - intros (e & Hin & He). exists e. case_decide as Hd; [| done].
    by destruct Hd.
  - intros (e & Hin & Hp & Hk & Ht). exists e. split; [done |].
    by rewrite decide_True.
Qed.

(** A timestamp field of a record is present exactly when some event of
    that path and kind has a parseable time, and then it holds the time of
    such an event. *)
Theorem timestamp_present_iff (upper : string → string) (df : list Event) :
  ∃ rs, build_file_table upper df = Some rs
    ∧ ∀ p k,
        (is_Some (timestamp rs p k)
         ↔ ∃ e, e ∈ df ∧ path e = p ∧ upper (type e) = k ∧ is_Some (time e))
        ∧ (∀ t, timestamp rs p k = Some t →
                ∃ e, e ∈ df ∧ path e = p ∧ upper (type e) = k
                     ∧ time e = Some t).
Proof.
  destruct (build_file_table_total upper df) as (rs & Hrs & _).
  exists rs. split; [done |]. intros p k.
  rewrite (timestamp_spec upper df rs p k Hrs).
  assert (∀ t, last (observations upper p k df) = Some t →
               ∃ e, e ∈ df ∧ path e = p ∧ upper (type e) = k
                    ∧ time e = Some t) as Hval.
  { intros t Ht%last_Some_elem_of. by apply elem_of_observations. }
  split; [| done]. split.
  - intros [t Ht]. destruct (Hval t Ht) as (e & ? & ? & ? & He).
    exists e. by rewrite He.
  - intros (e & Hin & Hp & Hk & [t Ht]).
    apply last_is_Some. intros Hnil.
    assert (t ∈ observations upper p k df) as Hobs
      by (apply elem_of_observations; by exists e).
    rewrite Hnil in Hobs. by apply elem_of_nil in Hobs.
Qed.

(** The partition, inode, size and deleted of a record are those of the
    first event of its path in the frame; the events after it have no say
    in them. *)
Theorem identity_from_first_event
  (upper : string → string) (pre : list Event) (e : Event)
  (post : list Event) :
  (∀ e', e' ∈ pre → path e' ≠ path e) →
  ∃ rs r,
    build_file_table upper (pre ++ e :: post) = Some rs
    ∧ find_record (path e) rs = Some r
    ∧ rec_path r = path e
    ∧ rec_partition r = partition e ∧ rec_inode r = inode e
    ∧ rec_size r = size e ∧ rec_deleted r = deleted e.
Proof.
  intros Hpre.
  destruct (build_file_table_total upper (pre ++ e :: post)) as (rs & Hrs & _).
  destruct (record_at_seed upper pre e post) as (r & Hr & Hid).
  exists rs, r. split; [done |].
  rewrite (find_record_spec upper _ _ _ Hrs). split; [done |].
  split; [by apply (record_at_path upper _ _ _ Hr) | by apply Hid].
Qed.

Lemma identity_from_first_event_witness :
  (∀ e', e' ∈ [ev (Some 3) "CRTIME" "/b"] → path e' ≠ path ev_unparseable)
  ∧ ∃ rs r,
      build_file_table ascii_upper
        ([ev (Some 3) "CRTIME" "/b"] ++ ev_unparseable
           :: [ev (Some 1) "MTIME" "/a"]) = Some rs
      ∧ find_record (path ev_unparseable) rs = Some r
      ∧ rec_path r = path ev_unparseable
      ∧ rec_partition r = partition ev_unparseable
      ∧ rec_inode r = inode ev_unparseable
      ∧ rec_size r = size ev_unparseable
      ∧ rec_deleted r = deleted ev_unparseable.
Proof.
  assert (∀ e', e' ∈ [ev (Some 3) "CRTIME" "/b"] →
                path e' ≠ path ev_unparseable) as H.
  { intros e' Hin. apply elem_of_cons in Hin as [->|Hin];
      [discriminate | by apply elem_of_nil in Hin]. }
  split; [exact H |].
  exact (identity_from_first_event ascii_upper [ev (Some 3) "CRTIME" "/b"]
           ev_unparseable [ev (Some 1) "MTIME" "/a"] H).
Defined.

#[local] Instance path_le_total : Total path_le.
Proof.
  intros [a|] [b|]; simpl; try (by left); try (by right).
  apply String.leb_total.
Qed.

(** The records come in ascending order of path, byte by byte, the record
    of the missing path last. *)
Theorem build_file_table_sorted (upper : string → string) (df : list Event) :
  ∃ rs, build_file_table upper df = Some rs
        ∧ Sorted path_le (rec_path <$> rs).
Proof.
  destruct (build_file_table_total upper df) as (rs & Hrs & _).
  exists rs. split; [done |].
  rewrite (build_file_table_paths upper df rs Hrs).
  apply Sorted_merge_sort, _.
Qed.

(** The record of a path depends on the events of that path alone: two
    frames with the same events for it, in the same order, give it the
    same record, whatever their other events. *)
Theorem record_of_own_events
  (upper : string → string) (df df' : list Event) (p : option string) :
  group_of p df = group_of p df' →
  ∃ rs rs',
    build_file_table upper df = Some rs
    ∧ build_file_table upper df' = Some rs'
    ∧ find_record p rs = find_record p rs'.
Proof.
  intros Hg.
  destruct (build_file_table_total upper df) as (rs & Hrs & _).
  destruct (build_file_table_total upper df') as (rs' & Hrs' & _).
  exists rs, rs'. split; [done |]. split; [done |].
  rewrite (find_record_spec upper _ _ p Hrs), (find_record_spec upper _ _ p Hrs').
  unfold record_at. by rewrite Hg.
Qed.

Lemma record_of_own_events_witness :
  group_of (Some "/a"%string)
    [ev (Some 1) "CRTIME" "/a"; ev (Some 5) "ATIME" "/b";
     ev (Some 2) "MTIME" "/a"]
  = group_of (Some "/a"%string)
      [ev (Some 9) "CTIME" "/c"; ev (Some 1) "CRTIME" "/a";
       ev (Some 2) "MTIME" "/a"]
  ∧ ∃ rs rs',
      build_file_table ascii_upper
        [ev (Some 1) "CRTIME" "/a"; ev (Some 5) "ATIME" "/b";
         ev (Some 2) "MTIME" "/a"] = Some rs
      ∧ build_file_table ascii_upper
          [ev (Some 9) "CTIME" "/c"; ev (Some 1) "CRTIME" "/a";
           ev (Some 2) "MTIME" "/a"] = Some rs'
      ∧ find_record (Some "/a"%string) rs = find_record (Some "/a"%string) rs'.
Proof.
  split; [reflexivity |].
  exact (record_of_own_events ascii_upper
           [ev (Some 1) "CRTIME" "/a"; ev (Some 5) "ATIME" "/b";
            ev (Some 2) "MTIME" "/a"]
           [ev (Some 9) "CTIME" "/c"; ev (Some 1) "CRTIME" "/a";
            ev (Some 2) "MTIME" "/a"]
           (Some "/a"%string) eq_refl).
Defined.

(** ** [detect] *)

(** On a table none of whose records has three timestamps two of
    them further apart than a [Timedelta] holds, [detect] returns, and in
    the table it returns the flag "Modified before creation" is in the
    flags of a record exactly when crtime and mtime are both present
    and mtime is strictly earlier than crtime. *)
Theorem modified_before_creation (df : FileTable) :
  Forall (λ r, ¬ out_of_bounds r) (rows df) →
  ∃ df', detect df = Some df' ∧ ∃ fl, flags df' = Some fl
    ∧ Forall2 (λ r f,
        flag_modified ∈ f
        ↔ ∃ c m, CRTIME r = Some c ∧ MTIME r = Some m ∧ m < c)
        (rows df) fl.
Proof.
  apply detect_in_bounds_Forall2. intros r fl Hfl.
  rewrite (elem_of_row_flags r fl _ Hfl). split.
  - intros [[? _]|[[_ He]|[[? _]|[? _]]]]; [done | | done..].
    by apply earlier_spec in He.
  - intros He. right; left. split; [done |]. by apply earlier_spec.
Qed.

Lemma modified_before_creation_witness :
  Forall (λ r, ¬ out_of_bounds r) (rows tbl_before)
  ∧ ∃ df', detect tbl_before = Some df' ∧ ∃ fl, flags df' = Some fl
      ∧ Forall2 (λ r f,
          flag_modified ∈ f
          ↔ ∃ c m, CRTIME r = Some c ∧ MTIME r = Some m ∧ m < c)
          (rows tbl_before) fl.
Proof.
  assert (Forall (λ r, ¬ out_of_bounds r) (rows tbl_before)) as H
    by (apply (bool_decide_unpack _); vm_compute; exact I).
  split; [exact H |]. exact (modified_before_creation tbl_before H).
Defined.

(** On a table none of whose records has three timestamps two of
    them further apart than a [Timedelta] holds, [detect] returns, and in
    the table it returns the flag "Deleted file accessed" is in the
    flags of a record exactly when the record is deleted and its atime
    is present, whatever its other timestamps. *)
Theorem deleted_file_accessed (df : FileTable) :
  Forall (λ r, ¬ out_of_bounds r) (rows df) →
  ∃ df', detect df = Some df' ∧ ∃ fl, flags df' = Some fl
    ∧ Forall2 (λ r f,
        flag_deleted ∈ f ↔ rec_deleted r = true ∧ is_Some (ATIME r))
        (rows df) fl.
Proof.
  apply detect_in_bounds_Forall2. intros r fl Hfl.
  rewrite (elem_of_row_flags r fl _ Hfl).
  rewrite andb_true_iff, bool_decide_eq_true. split.
  - by intros [[? _]|[[? _]|[[? _]|[_ ?]]]].
  - intros H. by do 3 right.
Qed.

Lemma deleted_file_accessed_witness :
  Forall (λ r, ¬ out_of_bounds r) (rows tbl_before)
  ∧ ∃ df', detect tbl_before = Some df' ∧ ∃ fl, flags df' = Some fl
      ∧ Forall2 (λ r f,
          flag_deleted ∈ f ↔ rec_deleted r = true ∧ is_Some (ATIME r))
          (rows tbl_before) fl.
Proof.
  assert (Forall (λ r, ¬ out_of_bounds r) (rows tbl_before)) as H
    by (apply (bool_decide_unpack _); vm_compute; exact I).
  split; [exact H |]. exact (deleted_file_accessed tbl_before H).
Defined.

(** On a table none of whose records has three timestamps two of
    them further apart than a [Timedelta] holds, [detect] returns, and in
    the table it returns the flags of a record stand in the
    order of the rules: access before creation, modified before creation,
    rapid activity, deleted file accessed. *)
Theorem flags_in_rule_order (df : FileTable) :
  Forall (λ r, ¬ out_of_bounds r) (rows df) →
  ∃ df', detect df = Some df' ∧ ∃ fl, flags df' = Some fl
    ∧ Forall (λ f,
        f `sublist_of` [flag_access; flag_modified; flag_rapid; flag_deleted])
        fl.
Proof.
  intros (df' & Hd)%detect_in_bounds. exists df'. split; [exact Hd |].
  apply detect_Some in Hd as (fl & HF & ->). exists fl. split; [done |].
  apply Forall_forall. intros f (i & Hi)%list_elem_of_lookup.
  destruct (Forall2_lookup_r _ _ _ i f HF Hi) as (r & _ & Hr).
  by apply (row_flags_sublist r).
Qed.

Lemma flags_in_rule_order_witness :
  Forall (λ r, ¬ out_of_bounds r) (rows tbl_before)
  ∧ ∃ df', detect tbl_before = Some df' ∧ ∃ fl, flags df' = Some fl
      ∧ Forall (λ f,
          f `sublist_of` [flag_access; flag_modified; flag_rapid; flag_deleted])
          fl.
Proof.
  assert (Forall (λ r, ¬ out_of_bounds r) (rows tbl_before)) as H
    by (apply (bool_decide_unpack _); vm_compute; exact I).
  split; [exact H |]. exact (flags_in_rule_order tbl_before H).
Defined.

(** On a table none of whose records has three timestamps two of
    them further apart than a [Timedelta] holds, [detect] returns, and in
    the table it returns a record with neither crtime nor atime
    has no flag, and so is not suspicious, whatever its mtime, its ctime
    and its deleted cell. *)
Theorem no_flag_without_crtime_and_atime (df : FileTable) :
  Forall (λ r, ¬ out_of_bounds r) (rows df) →
  ∃ df', detect df = Some df' ∧ ∃ fl su, flags df' = Some fl
    ∧ suspicious df' = Some su
    ∧ Forall2 (λ r f, CRTIME r = None → ATIME r = None → f = [])
        (rows df) fl
    ∧ Forall2 (λ r s, CRTIME r = None → ATIME r = None → s = false)
        (rows df) su.
Proof.
  assert (∀ r fl, row_flags r = Some fl →
                  CRTIME r = None → ATIME r = None → fl = []) as H.
  { intros r fl Hfl Hc Ha. revert Hfl. unfold row_flags, timestamps.
    rewrite Hc, Ha.
    destruct (MTIME r), (CTIME r), (rec_deleted r); simpl; congruence. }
  intros (df' & Hd)%detect_in_bounds. exists df'. split; [exact Hd |].
  apply detect_Some in Hd as (fl & HF & ->). exists fl. eexists.
  split; [done |]. split; [done |]. split.
  - eapply Forall2_impl; [exact HF |]. intros r f. apply H.
  - apply Forall2_fmap_r. eapply Forall2_impl; [exact HF |].
    intros r f Hf Hc Ha. by rewrite (H r f Hf Hc Ha).
Qed.

Lemma no_flag_without_crtime_and_atime_witness :
  Forall (λ r, ¬ out_of_bounds r) (rows tbl_before)
  ∧ ∃ df', detect tbl_before = Some df' ∧ ∃ fl su, flags df' = Some fl
      ∧ suspicious df' = Some su
      ∧ Forall2 (λ r f, CRTIME r = None → ATIME r = None → f = [])
          (rows tbl_before) fl
      ∧ Forall2 (λ r s, CRTIME r = None → ATIME r = None → s = false)
          (rows tbl_before) su.
Proof.
  assert (Forall (λ r, ¬ out_of_bounds r) (rows tbl_before)) as H
    by (apply (bool_decide_unpack _); vm_compute; exact I).
  split; [exact H |]. exact (no_flag_without_crtime_and_atime tbl_before H).
Defined.

(** [detect] raises, and assigns neither column, exactly when some record
    of the table has three timestamps or more, two of them further apart
    than a [Timedelta] holds (2^63 - 1 nanoseconds, some 292 years);
    otherwise it returns the table with its rows unchanged and one list of
    flags and one suspicious cell for each row. *)
Theorem detect_raises_iff (df : FileTable) :
  (detect df = None ↔ ∃ r, r ∈ rows df ∧ out_of_bounds r)
  ∧ ∀ df', detect df = Some df' →
           rows df' = rows df
           ∧ ∃ fl su, flags df' = Some fl ∧ suspicious df' = Some su
                      ∧ length fl = length (rows df)
                      ∧ length su = length (rows df).
Proof.
  split; [apply detect_None |].
  intros df' (fl & HF & ->)%detect_Some. split; [done |].
  exists fl. eexists. split; [done |]. split; [done |].
  apply Forall2_length in HF. by rewrite length_fmap.
Qed.

(** On the sample table [detect] returns, with the flags of each record. *)
Example detect_sample : detect tbl_before = Some tbl_after.
Proof. vm_compute. reflexivity. Qed.

(** The records of 1700, 2200 and 1970 make [detect] raise. *)
Example detect_far : detect (DataFrame [rec_plain; rec_far]) = None.
Proof. vm_compute. reflexivity. Qed.

(** ** A run, from the file to the flags *)

Lemma main_mixed :
  main ascii_upper (Some csv_mixed)
  = inr (evs_mixed, tbl_mixed).
Proof. vm_compute. reflexivity. Qed.

Lemma main_inr upper csv evs tbl :
  main upper (Some csv) = inr (evs, tbl) →
  evs = sort_values_time (to_event <$> csv_rows csv)
  ∧ build_file_table upper evs = Some (rows tbl).
Proof.
  unfold main, load_csv.
  destruct (check_columns required (columns csv)); [done |].
  destruct (build_file_table upper _) as [rs|] eqn:E; [| done].
  destruct (detect (DataFrame rs)) as [df_files|] eqn:Ed; [| done].
  intros [= <- <-]. split; [done |].
  by apply detect_Some in Ed as (fl & _ & ->).
Qed.

Lemma observations_sorted upper p k l :
  Forall (λ e, is_Some (time e)) l → StronglySorted time_le l →
  StronglySorted Z.le (observations upper p k l).
Proof.
  induction l as [|e l IH]; intros Hv Hs; [constructor |].
  apply Forall_cons in Hv as [[t Ht] Hv].
  apply StronglySorted_inv in Hs as [Hs Hle].
  specialize (IH Hv Hs). unfold observations. csimpl.
  case_decide as Hd; [| exact IH]. rewrite Ht. constructor; [exact IH |].
  apply Forall_forall. intros t' (e' & Hin & _ & _ & Ht')%elem_of_observations.
  rewrite Forall_forall in Hle. specialize (Hle e' Hin).
  unfold time_le in Hle. by rewrite Ht, Ht' in Hle.
Qed.

Lemma last_sorted_max (l : list Z) t x :
  StronglySorted Z.le l → last l = Some t → x ∈ l → x ≤ t.
Proof.
  intros Hs [l' ->]%last_Some [Hx|Hx%list_elem_of_singleton]%elem_of_app.
  - apply (StronglySorted_app_1_elem_of Z.le l' [t]); [done.. |].
    apply list_elem_of_here.
  - lia.
Qed.

Lemma observations_sort_values_time upper p k df :
  let obs := observations upper p k (sort_values_time df) in
  StronglySorted Z.le obs
  ∧ ∀ t, t ∈ obs
         ↔ ∃ e, e ∈ df ∧ path e = p ∧ upper (type e) = k ∧ time e = Some t.
Proof.
  simpl. split.
  - unfold sort_values_time. rewrite observations_app.
    rewrite (observations_nil upper p k (filter _ df)).
    + rewrite app_nil_r.
      destruct (sort_values_time_valid df) as [Hv Hs].
      by apply observations_sorted.
    + intros e [He _]%list_elem_of_filter _ _.
      destruct (time e); [| done]. by destruct He.
  - intros t. rewrite elem_of_observations.
    by setoid_rewrite (sort_values_time_perm df).
Qed.

(** After a run, a timestamp field of a record holds the latest of the
    times that parse among the rows of the file for that path and kind,
    and is absent when none parses. *)
Theorem main_latest_time_wins
  (upper : string → string) (csv : CsvFrame) (evs : list Event)
  (tbl : FileTable) :
  main upper (Some csv) = inr (evs, tbl) →
  ∀ p k,
    (∀ t, timestamp (rows tbl) p k = Some t →
          (∃ r, r ∈ csv_rows csv ∧ csv_path r = p ∧ upper (csv_type r) = k
                ∧ csv_time r = Some t)
          ∧ ∀ r t', r ∈ csv_rows csv → csv_path r = p →
                    upper (csv_type r) = k → csv_time r = Some t' → t' ≤ t)
    ∧ (timestamp (rows tbl) p k = None →
       ∀ r, r ∈ csv_rows csv → csv_path r = p → upper (csv_type r) = k →
            csv_time r = None).
Proof.
  intros [-> Hrs]%main_inr p k.
  rewrite (timestamp_spec upper _ _ p k Hrs).
  destruct (observations_sort_values_time upper p k (to_event <$> csv_rows csv))
    as [Hs Hin]. simpl in Hs, Hin.
  assert (∀ r t, r ∈ csv_rows csv → csv_path r = p → upper (csv_type r) = k →
                 csv_time r = Some t →
                 t ∈ observations upper p k
                       (sort_values_time (to_event <$> csv_rows csv))) as Hrow.
  { intros r t Hr Hp Hk Ht. apply Hin. exists (to_event r).
    split; [by apply list_elem_of_fmap_2 | done]. }
  split.
  - intros t Ht. split.
    + apply last_Some_elem_of, Hin in Ht as (e & He & Hp & Hk & Hte).
      apply list_elem_of_fmap in He as (r & -> & Hr). by exists r.
    + intros r t' Hr Hp Hk Ht'.
      by apply (last_sorted_max _ t t' Hs Ht), (Hrow r).
  - intros Hnone%last_None r Hr Hp Hk.
    destruct (csv_time r) as [t|] eqn:Ht; [| done].
    pose proof (Hrow r t Hr Hp Hk Ht) as Hobs.
    rewrite Hnone in Hobs. by apply elem_of_nil in Hobs.
Qed.

Lemma main_latest_time_wins_witness :
  main ascii_upper (Some csv_mixed)
  = inr (evs_mixed, tbl_mixed)
  ∧ ∀ p k,
      (∀ t, timestamp (rows (tbl_mixed)) p k = Some t →
            (∃ r, r ∈ csv_rows csv_mixed ∧ csv_path r = p
                  ∧ ascii_upper (csv_type r) = k ∧ csv_time r = Some t)
            ∧ ∀ r t', r ∈ csv_rows csv_mixed → csv_path r = p →
                      ascii_upper (csv_type r) = k → csv_time r = Some t' →
                      t' ≤ t)
      ∧ (timestamp (rows (tbl_mixed)) p k = None →
         ∀ r, r ∈ csv_rows csv_mixed → csv_path r = p →
              ascii_upper (csv_type r) = k → csv_time r = None).
Proof.
  split; [exact main_mixed |].
  exact (main_latest_time_wins ascii_upper csv_mixed evs_mixed
           (tbl_mixed) main_mixed).
Defined.

Lemma main_one_record_per_path_witness :
  (∀ c, c ∈ required → c ∈ columns csv_mixed)
  ∧ ∃ evs rs,
      load_csv (Some csv_mixed) = inr evs
      ∧ evs ≡ₚ to_event <$> csv_rows csv_mixed
      ∧ build_file_table ascii_upper evs = Some rs
      ∧ length rs = length (remove_dups (csv_path <$> csv_rows csv_mixed))
      ∧ ((∃ tbl, main ascii_upper (Some csv_mixed) = inr (evs, tbl)
                 ∧ rows tbl = rs
                 ∧ ∀ r, r ∈ rs → ¬ out_of_bounds r)
         ∨ (main ascii_upper (Some csv_mixed) = inl OutOfBoundsDatetime
            ∧ ∃ r, r ∈ rs ∧ out_of_bounds r)).
Proof.
  assert (∀ c, c ∈ required → c ∈ columns csv_mixed) as H.
  { intros c Hc. apply elem_of_app. by left. }
  split; [exact H |].
  exact (main_one_record_per_path ascii_upper csv_mixed H).
Defined.

Lemma head_filter_sorted {A} (R : relation A) (P : A → Prop)
  `{∀ x, Decision (P x)} (l : list A) (x : A) :
  StronglySorted R l → head (filter P l) = Some x →
  x ∈ l ∧ P x ∧ ∀ y, y ∈ filter P l → y = x ∨ R x y.
Proof.
  induction l as [|a l IH]; intros Hs Hh; [done |].
  apply StronglySorted_inv in Hs as [Hs Ha].
  rewrite filter_cons in Hh. destruct (decide (P a)) as [HP|HP].
  - injection Hh as ->. split; [apply list_elem_of_here |]. split; [done |].
    intros y. rewrite filter_cons_True by done.
    intros [->|[_ Hy]%list_elem_of_filter]%elem_of_cons; [by left |].
    right. rewrite Forall_forall in Ha. by apply Ha.
  - destruct (IH Hs Hh) as (Hin & HPx & Hy).
    split; [by apply list_elem_of_further |]. split; [done |].
    by rewrite filter_cons_False by done.
Qed.

Lemma build_file_table_elem_of upper df rs r :
  build_file_table upper df = Some rs → r ∈ rs →
  record_at upper df (rec_path r) = Some r.
Proof.
  intros HF%build_file_table_Forall2 (i & Hi)%list_elem_of_lookup.
  destruct (Forall2_lookup_r _ _ _ i r HF Hi) as (k & _ & Hk).
  by rewrite (record_at_path upper df k r Hk).
Qed.

(** After a run, the partition, inode, size and deleted of a record are
    those of one row of the file for its path; when some row of the path
    has a time that parses, that row has one too and none of the path is
    earlier. *)
Theorem main_identity_from_earliest
  (upper : string → string) (csv : CsvFrame) (evs : list Event)
  (tbl : FileTable) :
  main upper (Some csv) = inr (evs, tbl) →
  ∀ r, r ∈ rows tbl →
    ∃ row, row ∈ csv_rows csv
      ∧ csv_path row = rec_path r
      ∧ rec_partition r = csv_partition row
      ∧ rec_inode r = csv_inode row
      ∧ rec_size r = csv_size row
      ∧ rec_deleted r = parse_deleted (csv_deleted row)
      ∧ ∀ row' t', row' ∈ csv_rows csv → csv_path row' = rec_path r →
                   csv_time row' = Some t' →
                   ∃ t, csv_time row = Some t ∧ t ≤ t'.
Proof.
  intros [-> Hrs]%main_inr r Hr.
  pose proof (build_file_table_elem_of upper _ _ r Hrs Hr) as Hrec.
  set (df := to_event <$> csv_rows csv) in *.
  unfold record_at, build_record in Hrec.
  destruct (head (group_of (rec_path r) (sort_values_time df)))
    as [e0|] eqn:Hh; [| done].
  simpl in Hrec. injection Hrec as Hrec.
  assert (e0 ∈ df ∧ path e0 = rec_path r) as [He0 Hp0].
  { apply head_Some_elem_of, list_elem_of_filter in Hh as [? Hin].
    by rewrite sort_values_time_perm in Hin. }
  apply list_elem_of_fmap in He0 as (row & -> & Hrow).
  exists row. split; [done |]. split; [done |].
  rewrite <-Hrec. simpl. do 4 (split; [done |]).
  intros row' t' Hrow' Hp' Ht'.
  destruct (sort_values_time_valid df) as [Hv Hs]. simpl in Hv, Hs.
  set (valid := merge_sort time_le (filter (λ e, is_Some (time e)) df)) in *.
  assert (to_event row' ∈ filter (λ e, path e = rec_path r) valid) as Hin'.
  { apply list_elem_of_filter. split; [done |].
    unfold valid. rewrite merge_sort_Permutation.
    apply list_elem_of_filter. split; [by simpl; rewrite Ht' |].
    by apply list_elem_of_fmap_2. }
  unfold group_of, sort_values_time in Hh. fold valid in Hh.
  rewrite filter_app in Hh.
  destruct (filter (λ e, path e = rec_path r) valid) as [|x xs] eqn:Hf;
    [by apply elem_of_nil in Hin' |].
  simpl in Hh. injection Hh as ->.
  assert (head (filter (λ e, path e = rec_path r) valid) = Some (to_event row))
    as Hhead by (by rewrite Hf).
  destruct (head_filter_sorted time_le _ valid _ Hs Hhead) as (Hin0 & _ & Hle).
  rewrite Forall_forall in Hv. destruct (Hv _ Hin0) as [t Ht].
  exists t. split; [done |].
  rewrite Hf in Hle. destruct (Hle _ Hin') as [Heq|Hle'].
  - assert (time (to_event row') = Some t') as Hte by done.
    rewrite Heq, Ht in Hte. injection Hte as ->. lia.
  - assert (time (to_event row') = Some t') as Hte by done.
    unfold time_le in Hle'. by rewrite Ht, Hte in Hle'.
Qed.

Lemma main_identity_from_earliest_witness :
  main ascii_upper (Some csv_mixed)
  = inr (evs_mixed, tbl_mixed)
  ∧ ∀ r, r ∈ rows (tbl_mixed) →
      ∃ row, row ∈ csv_rows csv_mixed
        ∧ csv_path row = rec_path r
        ∧ rec_partition r = csv_partition row
        ∧ rec_inode r = csv_inode row
        ∧ rec_size r = csv_size row
        ∧ rec_deleted r = parse_deleted (csv_deleted row)
        ∧ ∀ row' t', row' ∈ csv_rows csv_mixed →
                     csv_path row' = rec_path r →
                     csv_time row' = Some t' →
                     ∃ t, csv_time row = Some t ∧ t ≤ t'.
Proof.
  split; [exact main_mixed |].
  exact (main_identity_from_earliest ascii_upper csv_mixed evs_mixed
           (tbl_mixed) main_mixed).
Defined.

(** * Properties of the extractor *)

(** ** [walk_directory] *)

(** Induction over entries and directories together. *)
Lemma Entry_Directory_ind
  (P : Extractor.Entry → Prop) (Q : Extractor.Directory → Prop) :
  (∀ name meta, P (Extractor.mkEntry name meta None)) →
  (∀ name meta d, Q d → P (Extractor.mkEntry name meta (Some d))) →
  Q Extractor.dir_nil →
  (∀ e rest, P e → Q rest → Q (Extractor.dir_cons e rest)) →
  (∀ e, P e) ∧ (∀ d, Q d).
Proof.
  intros Hleaf Hnode Hnil Hcons.
  assert (∀ d, Q d) as HQ.
  { fix IH 1. intros [|e rest]; [exact Hnil |].
    apply Hcons; [| apply IH].
    destruct e as [name meta [d|]]; [apply Hnode, IH | apply Hleaf]. }
  split; [| exact HQ].
  intros [name meta [d|]]; [apply Hnode, HQ | apply Hleaf].
Qed.

Lemma walk_take_both :
  (∀ e depth p c, c < Extractor.SCAN_LIMIT →
     Extractor.walk_entry depth e p c
     = (take (Z.to_nat (Extractor.SCAN_LIMIT - c))
             (Extractor.walk_all_entry depth e p),
        c + Z.of_nat (length (take (Z.to_nat (Extractor.SCAN_LIMIT - c))
                                   (Extractor.walk_all_entry depth e p))))%Z)
  ∧ (∀ d depth p c,
     Extractor.walk_directory depth d p c
     = (take (Z.to_nat (Extractor.SCAN_LIMIT - c))
             (Extractor.walk_all depth d p),
        c + Z.of_nat (length (take (Z.to_nat (Extractor.SCAN_LIMIT - c))
                                   (Extractor.walk_all depth d p))))%Z).
Proof.
  apply Entry_Directory_ind.
  - intros [name|] meta depth p c Hc; simpl;
      [| rewrite take_nil; simpl; f_equal; lia].
    replace (Z.to_nat (Extractor.SCAN_LIMIT - c))
      with (S (Z.to_nat (Extractor.SCAN_LIMIT - (c + 1)))) by lia.
    case_bool_decide; [rewrite take_nil; simpl; f_equal; lia |].
    destruct meta as [m|]; simpl; rewrite take_nil; simpl; f_equal; lia.
  - intros [name|] meta d Hd depth p c Hc; simpl;
      [| rewrite take_nil; simpl; f_equal; lia].
    replace (Z.to_nat (Extractor.SCAN_LIMIT - c))
      with (S (Z.to_nat (Extractor.SCAN_LIMIT - (c + 1)))) by lia.
    case_bool_decide; [rewrite take_nil; simpl; f_equal; lia |].
    destruct meta as [m|]; [| simpl; rewrite take_nil; simpl; f_equal; lia].
    destruct (Extractor.is_dir m);
      [| simpl; rewrite take_nil; simpl; f_equal; lia].
    destruct depth as [|depth'];
      [simpl; rewrite take_nil; simpl; f_equal; lia |].
    rewrite Hd. simpl. f_equal. lia.
  - intros depth p c. simpl. rewrite take_nil. simpl. f_equal. lia.
  - intros e rest He Hrest depth p c. simpl. case_bool_decide as Hlim.
    + replace (Z.to_nat (Extractor.SCAN_LIMIT - c)) with 0%nat by lia.
      simpl. f_equal. lia.
    + rewrite He by lia. rewrite Hrest. rewrite take_app.
      set (n := Z.to_nat (Extractor.SCAN_LIMIT - c)).
      set (allE := Extractor.walk_all_entry depth e p).
      set (allR := Extractor.walk_all depth rest p).
      assert (Z.to_nat (Extractor.SCAN_LIMIT
                        - (c + Z.of_nat (length (take n allE))))
              = (n - length allE)%nat) as ->.
      { rewrite length_take. unfold n. lia. }
      f_equal. rewrite !length_app. lia.
Qed.

Lemma walk_directory_take depth d p c :
  let ys := take (Z.to_nat (Extractor.SCAN_LIMIT - c))
                 (Extractor.walk_all depth d p) in
  Extractor.walk_directory depth d p c = (ys, c + Z.of_nat (length ys)).
Proof. destruct walk_take_both as [_ H]. apply H. Qed.

(** The scan limit cuts the walk short and does nothing else:
    [walk_directory] yields the first [SCAN_LIMIT - counter] pairs of the
    traversal without the limit, as deep as the interpreter lets the walks
    nest; none when the counter has reached the limit, all of them when
    they fit; and it adds to the counter the number of pairs it yields. *)
Theorem walk_directory_first_entries
  (depth : nat) (d : Extractor.Directory) (p : string) (c : Z) :
  ∃ ys,
    Extractor.walk_directory depth d p c = (ys, c + Z.of_nat (length ys))
    ∧ ys = take (Z.to_nat (Extractor.SCAN_LIMIT - c))
                (Extractor.walk_all depth d p)
    ∧ (Extractor.SCAN_LIMIT ≤ c → ys = [])
    ∧ (c + Z.of_nat (length (Extractor.walk_all depth d p))
       ≤ Extractor.SCAN_LIMIT →
       ys = Extractor.walk_all depth d p).
Proof.
  eexists. split; [apply walk_directory_take |].
  split; [done |]. split.
  - intros Hc. by replace (Z.to_nat (Extractor.SCAN_LIMIT - c)) with 0%nat by lia.
  - intros Hc. apply take_ge. lia.
Qed.

(** The counter is shared by the walks of a process: two walks in a row
    yield together no more than [SCAN_LIMIT - counter] pairs, the second
    yields nothing once the first has reached the limit, and a counter that
    starts at or under the limit never passes it. *)
Theorem walk_directory_shared_counter
  (depth1 depth2 : nat) (d1 d2 : Extractor.Directory) (p1 p2 : string)
  (c : Z) :
  ∃ ys c1 zs c2,
    Extractor.walk_directory depth1 d1 p1 c = (ys, c1)
    ∧ Extractor.walk_directory depth2 d2 p2 c1 = (zs, c2)
    ∧ (length ys + length zs ≤ Z.to_nat (Extractor.SCAN_LIMIT - c))%nat
    ∧ c2 = c + Z.of_nat (length ys) + Z.of_nat (length zs)
    ∧ (Extractor.SCAN_LIMIT ≤ c1 → zs = [])
    ∧ (c ≤ Extractor.SCAN_LIMIT → c2 ≤ Extractor.SCAN_LIMIT).
Proof.
  pose proof (walk_directory_take depth1 d1 p1 c) as H1. simpl in H1.
  set (ys := take (Z.to_nat (Extractor.SCAN_LIMIT - c))
                  (Extractor.walk_all depth1 d1 p1)) in *.
  pose proof (walk_directory_take depth2 d2 p2 (c + Z.of_nat (length ys)))
    as H2.
  simpl in H2.
  set (zs := take (Z.to_nat (Extractor.SCAN_LIMIT
                             - (c + Z.of_nat (length ys))))
                  (Extractor.walk_all depth2 d2 p2)) in *.
  exists ys, (c + Z.of_nat (length ys)), zs,
    (c + Z.of_nat (length ys) + Z.of_nat (length zs)).
  split; [done |]. split; [done |].
  assert (length ys ≤ Z.to_nat (Extractor.SCAN_LIMIT - c))%nat as Hly
    by (unfold ys; rewrite length_take; lia).
  assert (length zs
          ≤ Z.to_nat (Extractor.SCAN_LIMIT - (c + Z.of_nat (length ys))))%nat
    as Hlz by (unfold zs; rewrite length_take; lia).
  split; [lia |]. split; [done |]. split; [| lia].
  intros Hc. unfold zs.
  by replace (Z.to_nat (Extractor.SCAN_LIMIT - (c + Z.of_nat (length ys))))
    with 0%nat by lia.
Qed.

Lemma descends_cons e rest dirs x :
  Extractor.descends rest dirs x →
  Extractor.descends (Extractor.dir_cons e rest) dirs x.
Proof.
  intros H. destruct H as [d x Hin|d name m sub dirs x Hin Hm Hn Hsub].
  - apply Extractor.descends_here. simpl. by apply list_elem_of_further.
  - eapply Extractor.descends_sub; [| done..].
    simpl. by apply list_elem_of_further.
Qed.

Lemma walk_all_yields :
  (∀ e depth p, Forall (yielded_by depth e p) (Extractor.walk_all_entry depth e p))
  ∧ (∀ d depth p, Forall (yielded_in depth d p) (Extractor.walk_all depth d p)).
Proof.
  assert (∀ depth p name meta sub,
            name ∉ ["."; ".."]%string →
            yielded_by depth (Extractor.mkEntry (Some name) meta sub) p
              (Extractor.mkEntry (Some name) meta sub, p +:+ name)) as Hhere.
  { intros depth p name meta sub Hn. exists name. split; [done |].
    rewrite !not_elem_of_cons in Hn. destruct Hn as (? & ? & _).
    do 2 (split; [done |]). by left. }
  apply Entry_Directory_ind.
  - intros [name|] meta depth p; simpl; [| constructor].
    case_bool_decide as Hn; [constructor |].
    destruct meta as [m|];
      (constructor; [by apply Hhere | constructor]).
  - intros [name|] meta d Hd depth p; simpl; [| constructor].
    case_bool_decide as Hn; [constructor |].
    destruct meta as [m|];
      [| constructor; [by apply Hhere | constructor]].
    destruct (Extractor.is_dir m) eqn:Hm;
      [| constructor; [by apply Hhere | constructor]].
    destruct depth as [|depth'];
      [constructor; [by apply Hhere | constructor] |].
    constructor; [by apply Hhere |].
    eapply Forall_impl; [apply (Hd depth' ((p +:+ name) +:+ "/")) |].
    intros x (n & dirs & Hname & H1 & H2 & Hdesc & Hlen & Hpath).
    exists n. do 3 (split; [done |]). right.
    exists name, m, d, dirs. do 4 (split; [done |]). split; [lia | done].
  - constructor.
  - intros e rest He Hrest depth p. simpl. apply Forall_app. split.
    + eapply Forall_impl; [apply He |].
      intros x (n & Hname & H1 & H2 & [[Hx Hpath]|Hsub]).
      * exists n, []. do 3 (split; [done |]). split; [| split; [simpl; lia | done]].
        apply Extractor.descends_here. rewrite Hx. apply list_elem_of_here.
      * destruct Hsub as (name & m & sub & dirs & -> & Hm & Hn & Hdesc & Hlen
                          & Hpath).
        exists n, (name :: dirs). do 3 (split; [done |]).
        split; [| split; [simpl; lia | done]].
        eapply Extractor.descends_sub; [apply list_elem_of_here | done..].
    + eapply Forall_impl; [apply Hrest |].
      intros x (n & dirs & Hname & H1 & H2 & Hdesc & Hlen & Hpath).
      exists n, dirs. do 3 (split; [done |]).
      split; [by apply descends_cons | done].
Qed.

(** Every pair [walk_directory] yields is an entry with a name, never [.]
    nor [..], that lies in the directory under a chain of directories,
    each with a name that is not a dot name and a directory meta, no
    longer than the interpreter lets the walks nest; and its path is the
    parent path, then the name of each directory of the chain and a slash,
    then the name of the entry. *)
Theorem walk_directory_yields
  (depth : nat) (d : Extractor.Directory) (p : string) (c : Z) :
  Forall (λ x, ∃ name dirs,
            Extractor.entry_name x.1 = Some name
            ∧ name ≠ "."%string ∧ name ≠ ".."%string
            ∧ Extractor.descends d dirs x.1
            ∧ (length dirs ≤ depth)%nat
            ∧ x.2 = Extractor.under p dirs +:+ name)
         (Extractor.walk_directory depth d p c).1.
Proof.
  rewrite walk_directory_take. simpl.
  destruct walk_all_yields as [_ H]. specialize (H d depth p).
  apply Forall_take. exact H.
Qed.

Lemma insert_row_perm r l : Extractor.insert_row r l ≡ₚ r :: l.
Proof.
  induction l as [|x l IH]; simpl; [done |].
  destruct (String.leb _ _); [done |]. rewrite IH. apply Permutation_swap.
Qed.

Lemma sort_rows_perm l : Extractor.sort_rows l ≡ₚ l.
Proof.
  induction l as [|r l IH]; simpl; [done |].
  by rewrite insert_row_perm, IH.
Qed.

Lemma insert_row_sorted r l :
  Sorted row_le l → Sorted row_le (Extractor.insert_row r l).
Proof.
  induction l as [|x l IH]; intros Hs; simpl.
  - by repeat constructor.
  - destruct (String.leb (Extractor.time r) (Extractor.time x)) eqn:E.
    + constructor; [done |]. by constructor.
    + apply Sorted_inv in Hs as [Hs Hhd]. constructor; [by apply IH |].
      assert (row_le x r) as Hxr.
      { unfold row_le.
        destruct (String.leb_total (Extractor.time r) (Extractor.time x));
          [congruence | done]. }
      destruct l as [|y l]; simpl; [by constructor |].
      destruct (String.leb (Extractor.time r) (Extractor.time y));
        constructor; [done |]. by apply HdRel_inv in Hhd.
Qed.

Lemma sort_rows_sorted l : Sorted row_le (Extractor.sort_rows l).
Proof.
  induction l as [|r l IH]; simpl; [constructor | by apply insert_row_sorted].
Qed.

Lemma elem_of_entry_rows isoformat desc e p row :
  row ∈ Extractor.entry_rows isoformat desc (e, p)
  ↔ ∃ m k ts,
      Extractor.entry_meta e = Some m
      ∧ (k, ts) ∈ Extractor.timestamps m
      ∧ ts ≠ 0
      ∧ isoformat ts = Some (Extractor.time row)
      ∧ Extractor.time row ≠ ""%string
      ∧ Extractor.type row = k
      ∧ Extractor.path row = p
      ∧ Extractor.partition row = desc
      ∧ Extractor.inode row = Extractor.addr m
      ∧ Extractor.size row = Extractor.meta_size m
      ∧ Extractor.deleted row = Extractor.unalloc m.
Proof.
  unfold Extractor.entry_rows. cbn [fst snd].
  destruct (Extractor.entry_meta e) as [m|];
    [| split; [by intros ?%elem_of_nil | by intros (? & ? & ? & ? & _)]].
  rewrite list_elem_of_omap. split.
  - intros ([k ts] & Hin & Hrow). exists m, k, ts.
    split; [done |]. split; [done |]. unfold Extractor.to_utc in Hrow.
    case_bool_decide as Hts; [done |].
    destruct (isoformat ts) as [s|] eqn:Hs; [| done].
    case_bool_decide as Hne; [| done]. injection Hrow as <-. simpl.
    repeat (split; [done |]). by case_bool_decide.
  - intros (m' & k & ts & [= <-] & Hin & Hts & Hs & Hne & Hk & Hp & Hd & Hi
            & Hsz & Hdel).
    exists (k, ts). split; [done |]. unfold Extractor.to_utc.
    rewrite bool_decide_eq_false_2 by done. rewrite Hs.
    rewrite bool_decide_eq_true_2 by done. f_equal.
    destruct row; simpl in *. subst. f_equal. by case_bool_decide.
Qed.

Lemma extract_timeline_unfold isoformat depth root desc c :
  Extractor.extract_timeline isoformat depth root desc c
  = (Extractor.sort_rows
       ((Extractor.walk_directory depth root "/" c).1
          ≫= Extractor.entry_rows isoformat desc),
     (Extractor.walk_directory depth root "/" c).2).
Proof.
  unfold Extractor.extract_timeline.
  by destruct (Extractor.walk_directory depth root "/" c).
Qed.

(** A row is in the timeline exactly when the walk yields an entry under
    the path of the row that has a meta, and one of the four times of the
    meta, not zero, of the kind of the row, is turned by [isoformat] into
    the time string of the row, not empty; the row then carries the
    partition, and the address, size and allocation flag of the meta. *)
Theorem extract_timeline_rows
  (isoformat : Z → option string) (depth : nat)
  (root : Extractor.Directory) (desc : string) (c : Z) :
  ∀ row,
    row ∈ (Extractor.extract_timeline isoformat depth root desc c).1
    ↔ ∃ e m k ts,
        (e, Extractor.path row) ∈ (Extractor.walk_directory depth root "/" c).1
        ∧ Extractor.entry_meta e = Some m
        ∧ (k, ts) ∈ Extractor.timestamps m
        ∧ ts ≠ 0
        ∧ isoformat ts = Some (Extractor.time row)
        ∧ Extractor.time row ≠ ""%string
        ∧ Extractor.type row = k
        ∧ Extractor.partition row = desc
        ∧ Extractor.inode row = Extractor.addr m
        ∧ Extractor.size row = Extractor.meta_size m
        ∧ Extractor.deleted row = Extractor.unalloc m.
Proof.
  intros row. rewrite extract_timeline_unfold. simpl.
  rewrite sort_rows_perm, list_elem_of_bind. split.
  - intros ([e p] & (m & k & ts & Hm & Hin & Hts & Hs & Hne & Hk & Hp & H)
                     %elem_of_entry_rows & Hw).
    exists e, m, k, ts. rewrite Hp. by repeat (split; [done |]).
  - intros (e & m & k & ts & Hw & Hm & Hin & Hts & Hs & Hne & Hk & H).
    exists (e, Extractor.path row). split; [| done].
    apply elem_of_entry_rows. exists m, k, ts. by repeat (split; [done |]).
Qed.

Lemma length_omap_le {A B} (f : A → option B) (l : list A) :
  (length (omap f l) ≤ length l)%nat.
Proof.
  induction l as [|x l IH]; [done |]. csimpl.
  destruct (f x); simpl; lia.
Qed.

Lemma length_entry_rows isoformat desc x :
  (length (Extractor.entry_rows isoformat desc x) ≤ 4)%nat.
Proof.
  unfold Extractor.entry_rows. destruct (Extractor.entry_meta x.1); [| simpl; lia].
  etrans; [apply length_omap_le | done].
Qed.

Lemma length_bind_entry_rows isoformat desc l :
  (length (l ≫= Extractor.entry_rows isoformat desc) ≤ 4 * length l)%nat.
Proof.
  induction l as [|x l IH]; [done |]. csimpl. rewrite length_app.
  pose proof (length_entry_rows isoformat desc x). lia.
Qed.

(** The timeline has at most four rows for each walked entry, and so at
    most four times what is left of the scan limit: 40000 rows when the
    counter starts from zero. *)
Theorem extract_timeline_bounded
  (isoformat : Z → option string) (depth : nat)
  (root : Extractor.Directory) (desc : string) (c : Z) :
  (length (Extractor.extract_timeline isoformat depth root desc c).1
   ≤ 4 * length (Extractor.walk_directory depth root "/" c).1)%nat
  ∧ (length (Extractor.extract_timeline isoformat depth root desc c).1
     ≤ 4 * Z.to_nat (Extractor.SCAN_LIMIT - c))%nat
  ∧ Z.of_nat (length (Extractor.extract_timeline isoformat depth root desc 0).1)
    ≤ 40000.
Proof.
  assert (∀ c', (length (Extractor.extract_timeline isoformat depth root desc c').1
                 ≤ 4 * length (Extractor.walk_directory depth root "/" c').1)%nat
                ∧ (length (Extractor.walk_directory depth root "/" c').1
                   ≤ Z.to_nat (Extractor.SCAN_LIMIT - c'))%nat) as H.
  { intros c'. split.
    - rewrite extract_timeline_unfold. cbn [fst].
      rewrite sort_rows_perm. apply length_bind_entry_rows.
    - rewrite walk_directory_take. cbn [fst]. rewrite length_take. lia. }
  split; [apply H |]. split.
  - destruct (H c). lia.
  - destruct (H 0) as [H1 H2]. unfold Extractor.SCAN_LIMIT in H2. lia.
Qed.

Lemma leb_refl (s : string) : String.leb s s = true.
Proof. by destruct (String.leb_total s s). Qed.

Lemma insert_row_filter_time r l s :
  filter (λ x, Extractor.time x = s) (Extractor.insert_row r l)
  = filter (λ x, Extractor.time x = s) (r :: l).
Proof.
  induction l as [|x l IH]; simpl; [done |].
  destruct (String.leb (Extractor.time r) (Extractor.time x)) eqn:E; [done |].
  rewrite filter_cons, IH, !filter_cons.
  destruct (decide (Extractor.time x = s)) as [Hx|Hx]; [| done].
  destruct (decide (Extractor.time r = s)) as [Hr|Hr]; [| done].
  rewrite Hx, Hr, leb_refl in E. done.
Qed.

Lemma sort_rows_filter_time l s :
  filter (λ x, Extractor.time x = s) (Extractor.sort_rows l)
  = filter (λ x, Extractor.time x = s) l.
Proof.
  induction l as [|r l IH]; simpl; [done |].
  by rewrite insert_row_filter_time, !filter_cons, IH.
Qed.

(** The timeline is the rows of the walked entries put in ascending order
    of the time string; the rows of one time string keep the order of the
    walk, and within an entry the order ATIME, MTIME, CTIME, CRTIME. *)
Theorem extract_timeline_sorted
  (isoformat : Z → option string) (depth : nat)
  (root : Extractor.Directory) (desc : string) (c : Z) :
  Sorted row_le (Extractor.extract_timeline isoformat depth root desc c).1
  ∧ (Extractor.extract_timeline isoformat depth root desc c).1
    ≡ₚ (Extractor.walk_directory depth root "/" c).1
       ≫= Extractor.entry_rows isoformat desc
  ∧ (∀ s, filter (λ x, Extractor.time x = s)
                 (Extractor.extract_timeline isoformat depth root desc c).1
          = filter (λ x, Extractor.time x = s)
                   ((Extractor.walk_directory depth root "/" c).1
                      ≫= Extractor.entry_rows isoformat desc))
  ∧ (Extractor.extract_timeline isoformat depth root desc c).2
    = (Extractor.walk_directory depth root "/" c).2.
Proof.
  rewrite extract_timeline_unfold. cbn [fst snd].
  split; [apply sort_rows_sorted |]. split; [apply sort_rows_perm |].
  split; [| done]. intros s. apply sort_rows_filter_time.
Qed.

Lemma timeline_type_in_kinds isoformat depth root desc c row :
  row ∈ (Extractor.extract_timeline isoformat depth root desc c).1 →
  Extractor.type row ∈ kinds.
Proof.
  intros Hrow.
  rewrite extract_timeline_unfold in Hrow. cbn [fst] in Hrow.
  rewrite sort_rows_perm in Hrow.
  apply list_elem_of_bind in Hrow as ([e p] & Hrow & _).
  apply elem_of_entry_rows in Hrow
    as (m & k & ts & _ & Hin & _ & _ & _ & -> & _).
  unfold Extractor.timestamps in Hin.
  repeat (apply elem_of_cons in Hin as [[= -> _]|Hin];
          [apply (bool_decide_unpack _); vm_compute; exact I |]).
  by apply elem_of_nil in Hin.
Qed.

(** The extractor and the analyser agree on the types: an event of the
    frame that has the type of a row of the timeline and a time that
    parsed is filed by [build_file_table], when [upper] leaves the four
    kinds as they are, under the field of that very type in the record of
    its path, and that field is one of the four [detect] reads. *)
Theorem extract_timeline_kinds
  (upper : string → string) (isoformat : Z → option string) (depth : nat)
  (root : Extractor.Directory) (desc : string) (c : Z)
  (row : Extractor.Row) (df : list Event) (e : Event) (t : Z) :
  upper <$> kinds = kinds →
  row ∈ (Extractor.extract_timeline isoformat depth root desc c).1 →
  e ∈ df → type e = Extractor.type row → time e = Some t →
  Extractor.type row ∈ kinds
  ∧ ∃ rs r,
      build_file_table upper df = Some rs
      ∧ find_record (path e) rs = Some r
      ∧ is_Some (stamps r !! Extractor.type row)
      ∧ timestamp rs (path e) (Extractor.type row)
        = stamps r !! Extractor.type row
      ∧ Exists is_Some (timestamps r).
Proof.
  intros Hup Hrow He Hty Ht.
  pose proof (timeline_type_in_kinds _ _ _ _ _ _ Hrow) as Hk.
  split; [done |].
  assert (upper (type e) = Extractor.type row) as Hue.
  { rewrite Hty. unfold kinds in Hup, Hk. injection Hup as H1 H2 H3 H4.
    repeat (apply elem_of_cons in Hk as [->|Hk]; [done |]).
    by apply elem_of_nil in Hk. }
  destruct (build_file_table_total upper df) as (rs & Hrs & _).
  assert (is_Some (timestamp rs (path e) (Extractor.type row))) as Hsome.
  { rewrite (timestamp_spec upper df rs _ _ Hrs).
    apply last_is_Some. intros Hnil.
    assert (t ∈ observations upper (path e) (Extractor.type row) df) as Hobs
      by (apply elem_of_observations; by exists e).
    rewrite Hnil in Hobs. by apply elem_of_nil in Hobs. }
  unfold timestamp in Hsome.
  destruct (find_record (path e) rs) as [r|] eqn:Hr;
    [| by destruct Hsome].
  simpl in Hsome. exists rs, r. do 3 (split; [done |]).
  split; [unfold timestamp; by rewrite Hr |].
  unfold timestamps, CRTIME, ATIME, MTIME, CTIME. unfold kinds in Hk.
  apply elem_of_cons in Hk as [Hk|Hk];
    [rewrite Hk in Hsome; by apply Exists_cons_hd |].
  apply elem_of_cons in Hk as [Hk|Hk];
    [rewrite Hk in Hsome; by apply Exists_cons_tl, Exists_cons_hd |].
  apply elem_of_cons in Hk as [Hk|Hk];
    [rewrite Hk in Hsome;
     by apply Exists_cons_tl, Exists_cons_tl, Exists_cons_hd |].
  apply elem_of_cons in Hk as [Hk|Hk]; [| by apply elem_of_nil in Hk].
  rewrite Hk in Hsome.
  by apply Exists_cons_tl, Exists_cons_tl, Exists_cons_tl, Exists_cons_hd.
Qed.

Lemma extract_timeline_kinds_witness :
  Extractor.type row_sample ∈ kinds
  ∧ ∃ rs r,
      build_file_table ascii_upper
        [ev (Some 50000000000) "CRTIME" "/home/a.txt"] = Some rs
      ∧ find_record
          (path (ev (Some 50000000000) "CRTIME" "/home/a.txt")) rs = Some r
      ∧ is_Some (stamps r !! Extractor.type row_sample)
      ∧ timestamp rs (path (ev (Some 50000000000) "CRTIME" "/home/a.txt"))
          (Extractor.type row_sample)
        = stamps r !! Extractor.type row_sample
      ∧ Exists is_Some (timestamps r).
Proof.
  apply (extract_timeline_kinds ascii_upper sample_isoformat 990 sample_root
           "P" 0 row_sample
           [ev (Some 50000000000) "CRTIME" "/home/a.txt"]
           (ev (Some 50000000000) "CRTIME" "/home/a.txt") 50000000000).
  - reflexivity.
  - vm_compute. apply list_elem_of_here.
  - apply list_elem_of_here.
  - reflexivity.
  - reflexivity.
Defined.

(** ** The extractor on the sample file system *)

(** From a fresh counter the walk yields the five named entries. *)
Example walk_sample :
  (snd <$> (Extractor.walk_directory 990 sample_root "/" 0).1,
   (Extractor.walk_directory 990 sample_root "/" 0).2)
  = (["/home"; "/home/a.txt"; "/home/b.txt"; "/broken"; "/z"]%string, 5).
Proof. vm_compute. reflexivity. Qed.

(** When no further walk may nest, [/home] is yielded and counted, and
    not entered. *)
Example walk_sample_no_nesting :
  (snd <$> (Extractor.walk_directory 0 sample_root "/" 0).1,
   (Extractor.walk_directory 0 sample_root "/" 0).2)
  = (["/home"; "/broken"; "/z"]%string, 3).
Proof. vm_compute. reflexivity. Qed.

(** Two short of the limit it yields two and stops. *)
Example walk_sample_at_limit :
  (snd <$> (Extractor.walk_directory 990 sample_root "/" 9998).1,
   (Extractor.walk_directory 990 sample_root "/" 9998).2)
  = (["/home"; "/home/a.txt"]%string, 10000).
Proof. vm_compute. reflexivity. Qed.

(** The three files give three rows each, none for the time that is zero;
    the directories, whose times are all zero, give none. *)
Example timeline_sample :
  (λ r, (Extractor.time r, Extractor.type r, Extractor.path r))
    <$> (Extractor.extract_timeline sample_isoformat 990 sample_root "P" 0).1
  = [ ("1970-01-01T00:00:50+00:00", "CRTIME", "/home/a.txt");
      ("1970-01-01T00:00:50+00:00", "CRTIME", "/home/b.txt");
      ("1970-01-01T00:00:50+00:00", "CRTIME", "/z");
      ("1970-01-01T00:01:40+00:00", "ATIME", "/home/a.txt");
      ("1970-01-01T00:01:40+00:00", "ATIME", "/home/b.txt");
      ("1970-01-01T00:01:40+00:00", "ATIME", "/z");
      ("1970-01-01T00:05:00+00:00", "CTIME", "/home/a.txt");
      ("1970-01-01T00:05:00+00:00", "CTIME", "/home/b.txt");
      ("1970-01-01T00:05:00+00:00", "CTIME", "/z") ]%string.
Proof. vm_compute. reflexivity. Qed.
